(** * IntelliQru/logger: a leveled, multi-sink logging facade

    Shallow embedding of [logger.go] and proofs about its message builder,
    its routing table and its dispatching entry points.

    Go strings and byte slices are [string] (a sequence of 8-bit
    characters), Go [int] is [Z], the provider registry
    [map[string]*ProviderInterface] is a [gmap string ProviderInterface],
    the four routing slices are [list string]. *)

From Stdlib Require Import ZArith Ascii DecimalString.
From Stdlib Require DecimalZ.
From stdpp Require Import gmap strings list.

Local Open Scope Z_scope.

(** ** Characters the replacers of [logger.go] mention *)

Definition CR : ascii := "013"%char.
Definition LF : ascii := "010"%char.
Definition TAB : ascii := "009"%char.
Definition SPACE : ascii := " "%char.
Definition COLON : ascii := ":"%char.

Definition str (c : ascii) : string := String c EmptyString.

(** ** The parts of Go's [strings], [bytes], [fmt] and [log] packages in use *)

(** [strings.HasPrefix(s, prefix)]. *)
Definition HasPrefix (s prefix : string) : bool := String.prefix prefix s.

(** [strings.NewReplacer(old1, new1, old2, new2, ...)]: the pairs in
    argument order. *)
Definition NewReplacer (pairs : list (string * string)) : list (string * string) :=
  pairs.

(** The pair a replacer applies at the head of [s]: old strings are compared
    in argument order. *)
Fixpoint match_pair (r : list (string * string)) (s : string)
  : option (string * string) :=
  match r with
  | [] => None
  | (old, new) :: r' =>
      if HasPrefix s old then Some (old, new) else match_pair r' s
  end.

(** [Replace] of a [strings.Replacer]: replacements are performed in the order
    they appear in the target string, without overlapping matches. [skip]
    counts the characters of a matched old string still to be passed over.
    Every old string of [logger.go] is non-empty. *)
Fixpoint replace_from (r : list (string * string)) (skip : nat) (s : string)
  : string :=
  match s with
  | EmptyString => EmptyString
  | String c s' =>
      match skip with
      | S k => replace_from r k s'
      | O =>
          match match_pair r s with
          | Some (old, new) => new +:+ replace_from r (String.length old - 1) s'
          | None => String c (replace_from r 0 s')
          end
      end
  end.

Definition Replace (r : list (string * string)) (s : string) : string :=
  replace_from r 0 s.

(** [bytes.Replace(s, old, new, -1)], for a non-empty [old]: every
    non-overlapping instance of [old] is replaced. *)
Definition bytes_Replace (s old new : string) : string :=
  Replace (NewReplacer [(old, new)]) s.

(** Whether character [c] occurs in [cutset]. *)
Fixpoint in_cutset (c : ascii) (cutset : string) : bool :=
  match cutset with
  | EmptyString => false
  | String d cutset' => Ascii.eqb c d || in_cutset c cutset'
  end.

(** [strings.TrimRight(s, cutset)]: all trailing characters contained in
    [cutset] are removed. *)
Fixpoint TrimRight (s cutset : string) : string :=
  match s with
  | EmptyString => EmptyString
  | String c s' =>
      match TrimRight s' cutset with
      | EmptyString => if in_cutset c cutset then EmptyString else str c
      | t => String c t
      end
  end.

(** Message parts are [interface{}] values: strings, integers, booleans,
    [nil], and values of any other type, given by the text [fmt] prints for
    them. *)
Inductive Value : Type :=
  | VString (s : string)
  | VInt (n : Z)
  | VBool (b : bool)
  | VNil
  | VOther (printed : string).

(** [fmt.Fprint(w, v)] for one operand: the text appended to [w]. *)
Definition fmt_Sprint (v : Value) : string :=
  match v with
  | VString s => s
  | VInt n => NilZero.string_of_int (Z.to_int n)
  | VBool true => "true"
  | VBool false => "false"
  | VNil => "<nil>"
  | VOther printed => printed
  end.

(** A frame of the call stack as [log.Lshortfile] prints it: the final
    element of the file's path and the line number. *)
Record Frame : Type := { file : string; line : nat }.

(** [runtime.Caller] as [log.Output] uses it: [stack] lists the frames from
    the caller of [Output] outwards, calldepth 1 is the caller of [Output];
    beyond the end of the stack the file reads "???" and the line 0. *)
Definition Caller (calldepth : nat) (stack : list Frame) : Frame :=
  default {| file := "???"; line := 0 |} (stack !! (calldepth - 1)%nat).

Definition itoa (n : nat) : string := NilZero.string_of_uint (Nat.to_uint n).

(** The header [log] writes under [Lshortfile]: "<file>:<line>: ". *)
Definition formatHeader (f : Frame) : string :=
  file f +:+ str COLON +:+ itoa (line f) +:+ str COLON +:+ str SPACE.

Fixpoint ends_with (c : ascii) (s : string) : bool :=
  match s with
  | EmptyString => false
  | String d EmptyString => Ascii.eqb d c
  | String _ s' => ends_with c s'
  end.

(** [Output(calldepth, s)] of a [log.Logger] with prefix [prefix]
    and flags [Lshortfile] ([shortfile = true]) or 0: what is written to the
    logger's buffer. A newline is appended if [s] does not end in one. *)
Definition log_Output (prefix : string) (shortfile : bool)
    (calldepth : nat) (stack : list Frame) (s : string) : string :=
  prefix
  +:+ (if shortfile then formatHeader (Caller calldepth stack) else "")
  +:+ s
  +:+ (if ends_with LF s then "" else str LF).

(** ** logger.go: constants *)

Definition LEVEL_ERROR : Z := 0.
Definition LEVEL_INFO : Z := 1.
Definition LEVEL_DEBUG : Z := 2.

Definition TRACE_TYPE_ONE : Z := 0.
Definition TRACE_TYPE_ANY : Z := 1.

Definition MESSAGE_REPLACER : list (string * string) :=
  NewReplacer [(str CR, ""); (str LF, str TAB)].
Definition MESSAGE_SEPARATOR : string := " ".
Definition LOGGER_LINE_REPLACER : list (string * string) :=
  NewReplacer [(": ", ""); (" ", ""); (str LF, ", ")].

(** ** logger.go: the message builder *)

(** The loop [for i := 2; i < 6; i++] of [makeMessage], over the values of
    [i] still to come; [lineBuf] is the buffer of the same name. *)
Fixpoint trace_loop (traceType : Z) (stack : list Frame) (depths : list nat)
    (lineBuf : string) : string :=
  match depths with
  | [] => lineBuf
  | i :: depths' =>
      let val := log_Output "" true i stack "" in
      if HasPrefix val "logger.go:" then
        trace_loop traceType stack depths' lineBuf
      else if HasPrefix val "testing.go:" then
        lineBuf
      else
        let lineBuf := lineBuf +:+ val in
        if traceType =? TRACE_TYPE_ONE then lineBuf
        else trace_loop traceType stack depths' lineBuf
  end.

(** The variable [line] of [makeMessage]; [callers] lists the frames from
    the caller of [makeMessage] outwards, line 209 is the call of
    [logger.Output] inside the loop. *)
Definition trace_line (traceType : Z) (callers : list Frame) : string :=
  let stack := {| file := "logger.go"; line := 209 |} :: callers in
  TrimRight
    (Replace LOGGER_LINE_REPLACER (trace_loop traceType stack (seq 2 4) ""))
    ", ".

(** The loop [for i, v := range err] of [makeMessage]; [msg] is the buffer
    of the same name and [i] the index of the head of [err]. *)
Fixpoint write_parts (i : nat) (err : list Value) (msg : string) : string :=
  match err with
  | [] => msg
  | v :: err' =>
      let msg := if (0 <? i)%nat then msg +:+ MESSAGE_SEPARATOR else msg in
      write_parts (S i) err' (msg +:+ fmt_Sprint v)
  end.

(** The text handed to the last [logger.Output] of [makeMessage]. *)
Definition message_body (err : list Value) : string :=
  Replace MESSAGE_REPLACER (write_parts 0 err "").

(** [makeMessage] once the host name ([HOST]) and the formatted current
    time ([now]) are known. *)
Definition format_message (typeLog : string) (err : list Value)
    (traceType : Z) (callers : list Frame) (HOST now : string) : string :=
  let line := trace_line traceType callers in
  let prefix :=
    typeLog +:+ ": " +:+ now +:+ " " +:+ HOST +:+ " " +:+ line +:+ ": " in
  let stack := {| file := "logger.go"; line := 241 |} :: callers in
  let buf := log_Output prefix false 0 stack (message_body err) in
  bytes_Replace buf (str LF) "".

(** ** logger.go: providers and the logger *)

(** A value of [ProviderInterface]: the sink object behind it ([sink]
    tells two objects apart) and the identifier its [GetID] reports, the
    same at every call. Its methods [Log], [Error], [Fatal] and [Debug]
    return nothing; what a call of one of them does (it returns or panics,
    and may write into the buffer it is handed) is a matter of the object,
    see [call]. *)
Record ProviderInterface : Type := { sink : nat; GetID : string }.

Record Logger : Type := {
  providers : gmap string ProviderInterface;
  logProviders : list string;
  errorProviders : list string;
  fatalProviders : list string;
  debugProviders : list string;
  level : Z;
  traceType : Z
}.

Definition NewLogger : Logger :=
  {| providers := ∅;
     logProviders := [];
     errorProviders := [];
     fatalProviders := [];
     debugProviders := [];
     level := 0;
     traceType := 0 |}.

(** [SetTraceType]: the logger afterwards and the returned [error]
    ([None] is [nil]). *)
Definition SetTraceType (val : Z) (l : Logger) : Logger * option string :=
  if negb (val =? TRACE_TYPE_ONE) && negb (val =? TRACE_TYPE_ANY) then
    (l, Some "Unknown trace type.")
  else
    ({| providers := providers l;
        logProviders := logProviders l;
        errorProviders := errorProviders l;
        fatalProviders := fatalProviders l;
        debugProviders := debugProviders l;
        level := level l;
        traceType := val |}, None).

Definition SetLevel (lvl : Z) (l : Logger) : Logger :=
  {| providers := providers l;
     logProviders := logProviders l;
     errorProviders := errorProviders l;
     fatalProviders := fatalProviders l;
     debugProviders := debugProviders l;
     level := lvl;
     traceType := traceType l |}.

Definition RegisterProvider (p : ProviderInterface) (l : Logger) : Logger :=
  {| providers := <[GetID p := p]> (providers l);
     logProviders := logProviders l;
     errorProviders := errorProviders l;
     fatalProviders := fatalProviders l;
     debugProviders := debugProviders l;
     level := level l;
     traceType := traceType l |}.

(** The field of [Logger] the pointer [IDs] of [addProvider] refers to. *)
Inductive Field : Type := debugField | logField | errorField | fatalField.

#[global] Instance Field_eq_dec : EqDecision Field.
Proof. solve_decision. Defined.

Definition get_field (f : Field) (l : Logger) : list string :=
  match f with
  | debugField => debugProviders l
  | logField => logProviders l
  | errorField => errorProviders l
  | fatalField => fatalProviders l
  end.

Definition set_field (f : Field) (ids : list string) (l : Logger) : Logger :=
  {| providers := providers l;
     logProviders := if f is logField then ids else logProviders l;
     errorProviders := if f is errorField then ids else errorProviders l;
     fatalProviders := if f is fatalField then ids else fatalProviders l;
     debugProviders := if f is debugField then ids else debugProviders l;
     level := level l;
     traceType := traceType l |}.

(** A function of the package returns or panics. *)
Inductive Result (A : Type) : Type :=
  | Ok (a : A)
  | Panic (v : string).
Arguments Ok {A} a.
Arguments Panic {A} v.

(** The [switch providerType] of [addProvider]. *)
Definition select_field (providerType : string) : Result Field :=
  if String.eqb providerType "debug" then Ok debugField
  else if String.eqb providerType "log" then Ok logField
  else if String.eqb providerType "error" then Ok errorField
  else if String.eqb providerType "fatal" then Ok fatalField
  else Panic "Wrong type of the provider.".

(** The closure [alreadyRegistred] of [addProvider]. *)
Fixpoint alreadyRegistred (id : string) (idsList : list string) : bool :=
  match idsList with
  | [] => false
  | val :: idsList' =>
      if String.eqb val id then true else alreadyRegistred id idsList'
  end.

(** The loop [for _, id := range providersIDs] of [addProvider]; [IDs] is
    the slice the pointer of the same name refers to. *)
Fixpoint add_loop (provs : gmap string ProviderInterface)
    (providersIDs : list string) (IDs : list string) : list string :=
  match providersIDs with
  | [] => IDs
  | id :: providersIDs' =>
      match provs !! id with
      | Some provider =>
          let pID := GetID provider in
          if negb (alreadyRegistred pID IDs)
          then add_loop provs providersIDs' (IDs ++ [pID])
          else add_loop provs providersIDs' IDs
      | None => add_loop provs providersIDs' IDs
      end
  end.

Definition addProvider (providerType : string) (providersIDs : list string)
    (l : Logger) : Result Logger :=
  match select_field providerType with
  | Ok f => Ok (set_field f (add_loop (providers l) providersIDs (get_field f l)) l)
  | Panic v => Panic v
  end.

Definition AddLogProvider (provIDs : list string) (l : Logger) : Result Logger :=
  addProvider "log" provIDs l.

Definition AddErrorProvider (provIDs : list string) (l : Logger) : Result Logger :=
  addProvider "error" provIDs l.

Definition AddFatalProvider (provIDs : list string) (l : Logger) : Result Logger :=
  addProvider "fatal" provIDs l.

Definition AddDebugProvider (provIDs : list string) (l : Logger) : Result Logger :=
  addProvider "debug" provIDs l.

(** ** Effects of the logging entry points

    The entry points read the host name and the clock, keep the host name
    in the package variable [HOST], call [fmt.Sprintf] and methods of the
    providers, and may end the process or be ended by a panic. A computation
    maps the world before it to the calls it makes on the outside (in
    order), the world after it, and its result. *)

Inductive Method : Type := MLog | MError | MFatal | MDebug.

Inductive Event : Type :=
  | EHostname
  | ENow
  | ESprintf (format : string) (params : list Value)
  | ECall (p : ProviderInterface) (m : Method) (msg : string)
  | EExit (code : Z).

(** [HOST] is the package variable; [hostname] is what [os.Hostname]
    returns (empty when it fails, its error is dropped); [clock] is
    [time.Now().Format(time.RFC3339)]. *)
Record World : Type := { HOST : string; hostname : string; clock : string }.

(** A computation returns, ends the process, or panics. *)
Inductive Res (A : Type) : Type :=
  | Done (a : A)
  | Exited (code : Z)
  | Panicked (v : string).
Arguments Done {A} a.
Arguments Exited {A} code.
Arguments Panicked {A} v.

Record Outcome (A : Type) : Type :=
  { trace : list Event; world : World; result : Res A }.
Arguments trace {A} o.
Arguments world {A} o.
Arguments result {A} o.

Definition Go (A : Type) : Type := World -> Outcome A.

Definition go_ret {A} (a : A) : Go A :=
  fun w => {| trace := []; world := w; result := Done a |}.

Definition go_bind {A B} (f : A -> Go B) (m : Go A) : Go B :=
  fun w =>
    let o := m w in
    match result o with
    | Done a =>
        let o' := f a (world o) in
        {| trace := trace o ++ trace o'; world := world o'; result := result o' |}
    | Exited code =>
        {| trace := trace o; world := world o; result := Exited code |}
    | Panicked v =>
        {| trace := trace o; world := world o; result := Panicked v |}
    end.

#[global] Instance Go_ret : MRet Go := @go_ret.
#[global] Instance Go_bind : MBind Go := @go_bind.

Definition get_HOST : Go string :=
  fun w => {| trace := []; world := w; result := Done (HOST w) |}.

Definition set_HOST (h : string) : Go unit :=
  fun w => {| trace := [];
              world := {| HOST := h; hostname := hostname w; clock := clock w |};
              result := Done tt |}.

Definition os_Hostname : Go string :=
  fun w => {| trace := [EHostname]; world := w; result := Done (hostname w) |}.

Definition time_Now : Go string :=
  fun w => {| trace := [ENow]; world := w; result := Done (clock w) |}.

Definition os_Exit {A} (code : Z) : Go A :=
  fun w => {| trace := [EExit code]; world := w; result := Exited code |}.

(** [makeMessage]; [callers] lists the frames from its caller outwards. *)
Definition makeMessage (typeLog : string) (err : list Value) (traceType : Z)
    (callers : list Frame) : Go string :=
  h ← get_HOST;
  (if (String.length h =? 0)%nat then h' ← os_Hostname; set_HOST h'
   else mret tt);;
  now ← time_Now;
  h ← get_HOST;
  mret (format_message typeLog err traceType callers h now).

(** ** logger.go: the entry points

    [callers] lists the frames from the caller of the entry point outwards;
    each entry point adds the frame of the call it makes. *)
Section EntryPoints.

(** [fmt.Sprintf]: the text it returns. *)
Variable fmt_Sprintf : string -> list Value -> string.

(** What the method [m] of the sink object [n] does with the buffer it is
    handed: it panics with a value, or it returns, and then the result is
    the content of the buffer afterwards. The buffer is one slice, shared by
    the logger and all sinks of a call, so a sink may write into it (in Go
    it cannot change the length the logger sees; any content is allowed
    for here). A method is taken to do the same on the same buffer at every
    call. *)
Variable sink_method : nat -> Method -> string -> Result string.

Definition frame (n : nat) : Frame := {| file := "logger.go"; line := n |}.

(** A call of [fmt.Sprintf]. *)
Definition Sprintf (format : string) (params : list Value) : Go string :=
  fun w => {| trace := [ESprintf format params]; world := w;
              result := Done (fmt_Sprintf format params) |}.

(** A call of a method of the provider [p], as [Log(msg)] on it: the caller
    goes on with the buffer as the method left it, or is ended by the
    panic of the method. *)
Definition call (p : ProviderInterface) (m : Method) (msg : string) : Go string :=
  fun w => {| trace := [ECall p m msg]; world := w;
              result := match sink_method (sink p) m msg with
                        | Ok buf => Done buf
                        | Panic v => Panicked v
                        end |}.

(** The loops [for _, pID := range l.<category>Providers] over the
    identifiers still to come; [msg] is the buffer of that name. There is
    no [recover]: a panic of a sink ends the loop and the entry point. *)
Fixpoint dispatch (l : Logger) (m : Method) (ids : list string)
    (msg : string) : Go unit :=
  match ids with
  | [] => mret tt
  | pID :: ids' =>
      match providers l !! pID with
      | Some p => msg' ← call p m msg; dispatch l m ids' msg'
      | None => dispatch l m ids' msg
      end
  end.

Definition Log (l : Logger) (messageParts : list Value)
    (callers : list Frame) : Go unit :=
  if level l <? LEVEL_INFO then mret tt
  else
    msg ← makeMessage "LOG" messageParts (traceType l) (frame 129 :: callers);
    dispatch l MLog (logProviders l) msg.

Definition Logf (l : Logger) (format : string) (params : list Value)
    (callers : list Frame) : Go unit :=
  if level l <? LEVEL_INFO then mret tt
  else
    s ← Sprintf format params;
    Log l [VString s] (frame 122 :: callers).

Definition Error (l : Logger) (messageParts : list Value)
    (callers : list Frame) : Go unit :=
  msg ← makeMessage "ERROR" messageParts (traceType l) (frame 144 :: callers);
  dispatch l MError (errorProviders l) msg.

Definition Errorf (l : Logger) (format : string) (params : list Value)
    (callers : list Frame) : Go unit :=
  s ← Sprintf format params;
  Error l [VString s] (frame 139 :: callers).

Definition Debug (l : Logger) (messageParts : list Value)
    (callers : list Frame) : Go unit :=
  if level l <? LEVEL_DEBUG then mret tt
  else
    msg ← makeMessage "DEBUG" messageParts (traceType l) (frame 166 :: callers);
    dispatch l MDebug (debugProviders l) msg.

Definition Debugf (l : Logger) (format : string) (params : list Value)
    (callers : list Frame) : Go unit :=
  if level l <? LEVEL_DEBUG then mret tt
  else
    s ← Sprintf format params;
    Debug l [VString s] (frame 158 :: callers).

Definition Fatal (l : Logger) (messageParts : list Value)
    (callers : list Frame) : Go unit :=
  msg ← makeMessage "FATAL" messageParts (traceType l) (frame 180 :: callers);
  dispatch l MFatal (fatalProviders l) msg;;
  os_Exit 1.

Definition Fatalf (l : Logger) (format : string) (params : list Value)
    (callers : list Frame) : Go unit :=
  s ← Sprintf format params;
  Fatal l [VString s] (frame 176 :: callers).

End EntryPoints.

(** ** The configuration interface as a sequence of calls *)

Definition AddProvider (f : Field) : list string -> Logger -> Result Logger :=
  match f with
  | debugField => AddDebugProvider
  | logField => AddLogProvider
  | errorField => AddErrorProvider
  | fatalField => AddFatalProvider
  end.

Inductive Op : Type :=
  | ORegister (p : ProviderInterface)
  | OAdd (f : Field) (provIDs : list string)
  | OSetLevel (lvl : Z)
  | OSetTraceType (val : Z).

Definition run_op (op : Op) (l : Logger) : Result Logger :=
  match op with
  | ORegister p => Ok (RegisterProvider p l)
  | OAdd f provIDs => AddProvider f provIDs l
  | OSetLevel lvl => Ok (SetLevel lvl l)
  | OSetTraceType val => Ok (fst (SetTraceType val l))
  end.

(** The calls of [ops] made one after the other on [l]; a panic ends them. *)
Fixpoint setup (ops : list Op) (l : Logger) : Result Logger :=
  match ops with
  | [] => Ok l
  | op :: ops' =>
      match run_op op l with
      | Ok l' => setup ops' l'
      | Panic v => Panic v
      end
  end.

(** ** Reference definitions the theorems compare the code with *)

(** The sinks a list of identifiers resolves to, in the order of the list. *)
Definition resolved (l : Logger) (ids : list string) : list ProviderInterface :=
  omap (fun pID => providers l !! pID) ids.

(** The identifiers reported by the sinks called in a trace, in order. *)
Definition called_ids (t : list Event) : list string :=
  omap (fun e => match e with ECall p _ _ => Some (GetID p) | _ => None end) t.

(** What building a message does to the world: the host name is looked up
    when [HOST] is still empty, the clock is read once. *)
Definition host_of (w : World) : string :=
  if (String.length (HOST w) =? 0)%nat then hostname w else HOST w.

Definition build_events (w : World) : list Event :=
  (if (String.length (HOST w) =? 0)%nat then [EHostname] else []) ++ [ENow].

Definition built (w : World) : World :=
  {| HOST := host_of w; hostname := hostname w; clock := clock w |}.

(** A list without the later occurrences of its elements. *)
Fixpoint first_occurrences (ids : list string) : list string :=
  match ids with
  | [] => []
  | id :: ids' => id :: filter (fun x => x ≠ id) (first_occurrences ids')
  end.

(** The identifiers the calls of [ops] attach to field [f], in call order:
    those that are keys of the registry at the time of their call; [reg] is
    the set of keys before [ops]. *)
Fixpoint attached (f : Field) (ops : list Op) (reg : gset string) : list string :=
  match ops with
  | [] => []
  | ORegister p :: ops' => attached f ops' ({[GetID p]} ∪ reg)
  | OAdd f' provIDs :: ops' =>
      (if decide (f' = f) then filter (fun id => id ∈ reg) provIDs else [])
      ++ attached f ops' reg
  | _ :: ops' => attached f ops' reg
  end.

(** Character by character rewriting of a string. *)
Fixpoint map_chars (f : ascii -> string) (s : string) : string :=
  match s with
  | EmptyString => EmptyString
  | String c s' => f c +:+ map_chars f s'
  end.

(** Carriage returns removed, every newline turned into a tab. *)
Definition flatten (s : string) : string :=
  map_chars (fun c => if Ascii.eqb c CR then ""
                      else if Ascii.eqb c LF then str TAB else str c) s.

Definition without_LF (s : string) : string :=
  map_chars (fun c => if Ascii.eqb c LF then "" else str c) s.

(** The printed forms of the parts, one space between consecutive ones. *)
Definition joined (parts : list Value) : string :=
  String.concat " " (map fmt_Sprint parts).

(** The prefix of a message: "<typeLog>: <time> <host> <location>: ". *)
Definition message_prefix (typeLog now host location : string) : string :=
  typeLog +:+ ": " +:+ now +:+ " " +:+ host +:+ " " +:+ location +:+ ": ".

(** What [log] writes for a frame under [Lshortfile] and an empty message,
    and the entry "<file>:<line>" of the frame in the location field. *)
Definition frame_text (f : Frame) : string := formatHeader f +:+ str LF.

Definition location (f : Frame) : string :=
  file f +:+ str COLON +:+ itoa (line f).

(** Frames of the logging module and the boundary frame, as [makeMessage]
    tells them. *)
Definition is_module (f : Frame) : bool := HasPrefix (frame_text f) "logger.go:".
Definition is_boundary (f : Frame) : bool := HasPrefix (frame_text f) "testing.go:".

(** The four frames [makeMessage] looks at: the ones directly above it,
    a frame missing from a shorter stack reading "???:0". *)
Definition examined (callers : list Frame) : list Frame :=
  map (fun k => default {| file := "???"; line := 0 |} (callers !! k)) (seq 0 4).

(** The frames of [fs] that are recorded: module frames are skipped, the
    boundary frame ends the walk, and so does the first recorded frame
    when only the caller is asked for. *)
Fixpoint recorded (traceType : Z) (fs : list Frame) : list Frame :=
  match fs with
  | [] => []
  | f :: fs' =>
      if is_module f then recorded traceType fs'
      else if is_boundary f then []
      else if traceType =? TRACE_TYPE_ONE then [f]
      else f :: recorded traceType fs'
  end.

(** A file name the line replacer leaves alone: no space, no newline. *)
Fixpoint plain (s : string) : bool :=
  match s with
  | EmptyString => true
  | String c s' => negb (Ascii.eqb c SPACE) && negb (Ascii.eqb c LF) && plain s'
  end.

(** The location field as the specification words it for the full trace:
    every frame outside the module, up to the boundary frame or the end of
    the stack. *)
Fixpoint external_frames (callers : list Frame) : list Frame :=
  match callers with
  | [] => []
  | f :: callers' =>
      if is_boundary f then []
      else if is_module f then external_frames callers'
      else f :: external_frames callers'
  end.

Definition full_location (callers : list Frame) : string :=
  String.concat ", " (map location (external_frames callers)).

(** ** Predicates of the proofs *)

(** Every old string of the replacer is a single character. *)
Definition bytewise (r : list (string * string)) : Prop :=
  Forall (fun p => String.length (fst p) = 1%nat) r.

(** What such a replacer writes for the character [c]. *)
Definition subst_char (r : list (string * string)) (c : ascii) : string :=
  match match_pair r (str c) with
  | Some (_, new) => new
  | None => str c
  end.

(** Strings that [TrimRight] with the cutset ", " leaves whole. *)
Definition kept (s : string) : Prop := TrimRight s ", " = s /\ s <> "".

(** The walk of [makeMessage] stays on the stack: four frames are there to
    look at, or a boundary frame ends the walk. *)
Definition stays_on_stack (callers : list Frame) : Prop :=
  (4 <= length callers)%nat
  \/ exists k b, callers !! k = Some b /\ is_boundary b = true.

(** The registry maps every key to a provider reporting that key. *)
Definition keyed (provs : gmap string ProviderInterface) : Prop :=
  forall k p, provs !! k = Some p -> GetID p = k.

(** The state the configuration interface keeps a logger in: the registry
    is keyed by the reported identifiers, no routing list repeats an
    identifier, and every listed identifier is a key of the registry. *)
Record well_formed (l : Logger) : Prop := {
  wf_keyed : keyed (providers l);
  wf_NoDup : forall f, NoDup (get_field f l);
  wf_listed : forall f id, id ∈ get_field f l -> is_Some (providers l !! id)
}.

(** ** Stacks, providers and worlds used as examples *)

(** [Logf] called from a closure of a test, as in [TestFormat]. *)
Definition test_callers : list Frame :=
  [ {| file := "logger_test.go"; line := 124 |};
    {| file := "logger_test.go"; line := 138 |};
    {| file := "testing.go"; line := 610 |} ].

(** [Log] called at the bottom of four nested calls of a test. *)
Definition deep_stack : list Frame :=
  [ {| file := "logger.go"; line := 129 |};
    {| file := "a.go"; line := 1 |};
    {| file := "b.go"; line := 2 |};
    {| file := "c.go"; line := 3 |};
    {| file := "d.go"; line := 4 |};
    {| file := "testing.go"; line := 610 |} ].

(** [Log] called from the function a goroutine was started with. *)
Definition short_stack : list Frame :=
  [ {| file := "logger.go"; line := 129 |};
    {| file := "main.go"; line := 12 |};
    {| file := "asm_amd64.s"; line := 1650 |} ].

(** [Log] called from a file whose name holds a space. *)
Definition spaced_stack : list Frame :=
  [ {| file := "logger.go"; line := 129 |};
    {| file := "my file.go"; line := 7 |};
    {| file := "testing.go"; line := 610 |} ].

Definition provider0 : ProviderInterface := {| sink := 0; GetID := "0" |}.
Definition provider1 : ProviderInterface := {| sink := 1; GetID := "1" |}.
Definition provider2 : ProviderInterface := {| sink := 2; GetID := "2" |}.

(** The calls of [TestAddProvider]. *)
Definition test_setup : list Op :=
  [ ORegister provider1; ORegister provider0; ORegister provider2;
    OAdd errorField ["0"];
    OAdd logField ["1"; "1"];
    OAdd fatalField ["1"; "0"];
    OAdd debugField ["2"; "2"; "0"] ].

(** A logger with both providers registered and attached everywhere. *)
Definition example_logger (lvl : Z) : Logger :=
  {| providers := <["0" := provider0]> (<["1" := provider1]> ∅);
     logProviders := ["1"; "0"];
     errorProviders := ["1"; "0"];
     fatalProviders := ["1"; "0"];
     debugProviders := ["1"; "0"];
     level := lvl;
     traceType := TRACE_TYPE_ANY |}.

Definition fresh_world : World :=
  {| HOST := ""; hostname := "myhost"; clock := "2016-11-21T14:50:23+03:00" |}.

(** ** Occurrence of a character *)

Definition contains_char (s : string) (c : ascii) : bool := in_cutset c s.

(** ** The Telegram provider *)

Definition QUOTE : ascii := "034"%char.

Definition PROVIDER_TELEGRAM : string := "telegram".

Record TelegramProvider : Type := { url : string; chatIds : list string }.

(** [NewTelegramProvider]: the provider ([None] is the [nil] pointer) and
    the [error] ([None] is [nil]). The slice [chatIds] is [None] when it is
    [nil]; an empty slice that is not [nil] is [Some []]. *)
Definition NewTelegramProvider (url : string) (chatIds : option (list string))
  : option TelegramProvider * option string :=
  if (String.length url =? 0)%nat then
    (None, Some "Empty telegram url.")
  else
    match chatIds with
    | None => (None, Some "Empty telegram chat ids.")
    | Some ids => (Some {| url := url; chatIds := ids |}, None)
    end.

Definition TelegramProvider_GetID (p : TelegramProvider) : string :=
  PROVIDER_TELEGRAM.

(** A Telegram provider behind [ProviderInterface]; [n] names the object. *)
Definition TelegramProvider_interface (n : nat) (p : TelegramProvider)
  : ProviderInterface :=
  {| sink := n; GetID := TelegramProvider_GetID p |}.

(** What [tg_send] does on the network: [client.Do] called with a POST
    request for [url] carrying the header Content-Type and the body, and the
    body of the response to the request with that body closed. *)
Inductive HttpEvent : Type :=
  | HPost (url contentType body : string)
  | HClose (body : string).

(** The panic of the Go runtime on a field read through a [nil] pointer. *)
Definition nil_dereference : string :=
  "runtime error: invalid memory address or nil pointer dereference".

(** The variable [msg] of [tg_send]. *)
Definition tg_message (chatId subject body : string) : string :=
  "{" +:+ str QUOTE +:+ "chat_id" +:+ str QUOTE +:+ ":" +:+ chatId
  +:+ "," +:+ str QUOTE +:+ "text" +:+ str QUOTE +:+ ":"
  +:+ str QUOTE +:+ subject +:+ body +:+ str QUOTE +:+ "}".

Section Telegram.

(** Whether [http.NewRequest("POST", url, _)] returns a request (otherwise
    [nil], the error being dropped), and whether [client.Do] returns a
    response to the POST request for [url] with the given body (otherwise
    [nil], the error being dropped). *)
Variable NewRequest_ok : string -> bool.
Variable Do_ok : string -> string -> bool.

(** The loop of [tg_send] over the recipients still to come. [deferred]
    holds the deferred calls, the latest first; they run when the function
    returns or panics. Reading [req.Header] of a [nil] request and
    [resp.Body] of a [nil] response panics. *)
Fixpoint tg_send_loop (url : string) (chatIds : list string)
    (subject body : string) (deferred : list HttpEvent)
  : list HttpEvent * Result unit :=
  match chatIds with
  | [] => (deferred, Ok tt)
  | chatId :: chatIds' =>
      let msg := tg_message chatId subject body in
      if negb (NewRequest_ok url) then
        (deferred, Panic nil_dereference)
      else if negb (Do_ok url msg) then
        (HPost url "application/json" msg :: deferred, Panic nil_dereference)
      else
        let '(events, r) :=
          tg_send_loop url chatIds' subject body (HClose msg :: deferred) in
        (HPost url "application/json" msg :: events, r)
  end.

Definition tg_send (url : string) (chatIds : list string)
    (subject body : string) : list HttpEvent * Result unit :=
  tg_send_loop url chatIds subject body [].

(** [send] starts [tg_send] in a goroutine of its own and returns; the
    value is what that goroutine does. *)
Definition send (p : TelegramProvider) (subject body : string)
  : list HttpEvent * Result unit :=
  tg_send (url p) (chatIds p) subject body.

(** The subject each method of the provider passes to [send]. *)
Definition subject_of (m : Method) : string :=
  match m with
  | MLog => "Log message" +:+ str LF
  | MError => "Error message" +:+ str LF
  | MFatal => "Fatal message" +:+ str LF
  | MDebug => "Debug message" +:+ str LF
  end.

(** The methods [Log], [Error], [Fatal] and [Debug] of the provider. *)
Definition TelegramProvider_call (p : TelegramProvider) (m : Method)
    (msg : string) : list HttpEvent * Result unit :=
  send p (subject_of m) msg.

End Telegram.

(** ** The provider of the tests *)

Record Provider : Type := { Level : Z; NotCheckLevel : bool }.

(** [GetID]: [fmt.Sprintf("%d", p.Level)]. *)
Definition Provider_GetID (p : Provider) : string := fmt_Sprint (VInt (Level p)).

(** The methods of the test provider: they return or panic. *)
Definition Provider_call (p : Provider) (m : Method) (msg : string)
  : Result unit :=
  match m with
  | MLog =>
      if (Level p <? LEVEL_INFO) || NotCheckLevel p
      then Panic ("call Log: " +:+ msg) else Ok tt
  | MDebug =>
      if (Level p <? LEVEL_DEBUG) || NotCheckLevel p
      then Panic ("call Debug: " +:+ msg) else Ok tt
  | MError => Panic ("call Error: " +:+ msg)
  | MFatal => Panic ("call Fatal: " +:+ msg)
  end.

(** A test provider behind [ProviderInterface]; [n] names the object. *)
Definition Provider_interface (n : nat) (p : Provider) : ProviderInterface :=
  {| sink := n; GetID := Provider_GetID p |}.

(** The logger [TestPringMessage] builds for a level, and its provider. *)
Definition test_provider (lvl : Z) : Provider :=
  {| Level := lvl; NotCheckLevel := false |}.

Definition test_logger_ops (lvl : Z) : list Op :=
  let id := Provider_GetID (test_provider lvl) in
  [ OSetLevel lvl;
    ORegister (Provider_interface 0 (test_provider lvl));
    OAdd logField [id]; OAdd errorField [id];
    OAdd fatalField [id]; OAdd debugField [id] ].

(** An event on which the test provider of level [lvl] does not panic:
    any call of a method is a call of this provider that returns. *)
Definition quiet (lvl : Z) (e : Event) : Prop :=
  match e with
  | ECall q m msg =>
      q = Provider_interface 0 (test_provider lvl)
      /\ Provider_call (test_provider lvl) m msg = Ok tt
  | _ => True
  end.

(** ** The settings a sequence of configuration calls leaves *)

(** The level after [ops] on a logger of level [lvl]: the value of the last
    [SetLevel]. *)
Fixpoint last_level (ops : list Op) (lvl : Z) : Z :=
  match ops with
  | [] => lvl
  | OSetLevel v :: ops' => last_level ops' v
  | _ :: ops' => last_level ops' lvl
  end.

(** The trace mode after [ops] on a logger of mode [tr]: the value of the
    last [SetTraceType] called with one of the two modes. *)
Fixpoint last_trace_mode (ops : list Op) (tr : Z) : Z :=
  match ops with
  | [] => tr
  | OSetTraceType v :: ops' =>
      last_trace_mode ops'
        (if (v =? TRACE_TYPE_ONE) || (v =? TRACE_TYPE_ANY) then v else tr)
  | _ :: ops' => last_trace_mode ops' tr
  end.

(** ** Sinks and traces used in the statements *)

(** The sinks called in a trace, in order. *)
Definition called_sinks (t : list Event) : list ProviderInterface :=
  omap (fun e => match e with ECall p _ _ => Some p | _ => None end) t.

(** An outcome with one more event in front. *)
Definition after_event {A} (e : Event) (o : Outcome A) : Outcome A :=
  {| trace := e :: trace o; world := world o; result := result o |}.

(** Sinks whose methods all return and leave the buffer as it is. *)
Definition returning_sinks : nat -> Method -> string -> Result string :=
  fun _ _ msg => Ok msg.

(** A method of the test provider as a method of a sink: it never writes
    into the buffer. *)
Definition Provider_method (p : Provider) (m : Method) (msg : string)
  : Result string :=
  match Provider_call p m msg with
  | Ok _ => Ok msg
  | Panic v => Panic v
  end.

(** Sinks where the object [n] is the test provider of level [n], as
    [TestAddProvider] and [TestPringMessage] build them. *)
Definition test_sinks : nat -> Method -> string -> Result string :=
  fun n => Provider_method {| Level := Z.of_nat n; NotCheckLevel := false |}.


(** How often a character occurs in a string. *)
Fixpoint count_char (c : ascii) (s : string) : nat :=
  match s with
  | EmptyString => 0%nat
  | String d s' => ((if Ascii.eqb d c then 1 else 0) + count_char c s')%nat
  end.

(** The method [m] of the sink [p] returns and leaves the buffer as it is. *)
Definition leaves_buffer (sinks : nat -> Method -> string -> Result string)
    (m : Method) (p : ProviderInterface) : Prop :=
  forall buf, sinks (sink p) m buf = Ok buf.

(** The method [m] of the sink [p] returns, whatever it leaves in the
    buffer. *)
Definition returns (sinks : nat -> Method -> string -> Result string)
    (m : Method) (p : ProviderInterface) : Prop :=
  forall buf, exists buf', sinks (sink p) m buf = Ok buf'.

(** [calls] is one call of the method [m] for each of the sinks [listed],
    in their order, the first of them with the message [msg]. *)
Definition dispatched (m : Method) (listed : list ProviderInterface)
    (msg : string) (calls : list Event) : Prop :=
  called_sinks calls = listed
  /\ Forall (fun e => exists p buf, e = ECall p m buf) calls
  /\ head calls = head (map (fun p => ECall p m msg) listed).

(** The provider and the logger of [TestFormat]. *)
Definition format_provider : Provider :=
  {| Level := LEVEL_DEBUG; NotCheckLevel := true |}.

Definition format_sinks : nat -> Method -> string -> Result string :=
  fun _ => Provider_method format_provider.

Definition format_logger_ops (tr : Z) : list Op :=
  let id := Provider_GetID format_provider in
  [ OSetLevel (Level format_provider);
    ORegister (Provider_interface 0 format_provider);
    OAdd logField [id]; OAdd errorField [id];
    OAdd fatalField [id]; OAdd debugField [id];
    OSetTraceType tr ].

Definition format_logger (tr : Z) : Logger :=
  {| providers := <["2" := Provider_interface 0 format_provider]> ∅;
     logProviders := ["2"];
     errorProviders := ["2"];
     fatalProviders := ["2"];
     debugProviders := ["2"];
     level := LEVEL_DEBUG;
     traceType := tr |}.

(** The sinks of [TestPringMessage] for a level: the one provider of the
    test, whatever the object is. *)
Definition stub_sinks (lvl : Z) : nat -> Method -> string -> Result string :=
  fun _ => Provider_method (test_provider lvl).

(** * Proofs *)

(** ** Strings *)

Lemma append_cons (x : ascii) (a b : string) :
  String x a +:+ b = String x (a +:+ b).
Proof. reflexivity. Qed.

Lemma append_empty_l (a : string) : "" +:+ a = a.
Proof. reflexivity. Qed.

Lemma append_assoc (a b c : string) : (a +:+ b) +:+ c = a +:+ (b +:+ c).
Proof.
  induction a as [|x a IH]; [reflexivity|].
  by rewrite !append_cons, IH.
Qed.

Lemma append_empty_r (a : string) : a +:+ "" = a.
Proof.
  induction a as [|x a IH]; [reflexivity|].
  by rewrite append_cons, IH.
Qed.

Lemma map_chars_append f (a b : string) :
  map_chars f (a +:+ b) = map_chars f a +:+ map_chars f b.
Proof.
  induction a as [|x a IH]; [reflexivity|].
  rewrite append_cons. cbn [map_chars]. by rewrite IH, append_assoc.
Qed.

Lemma HasPrefix_char c d s :
  HasPrefix (String c s) (String d "") = Ascii.eqb c d.
Proof.
  unfold HasPrefix. cbn [String.prefix].
  destruct (ascii_dec d c) as [->|Hne].
  - rewrite Ascii.eqb_refl. by destruct s.
  - symmetry. apply Ascii.eqb_neq. congruence.
Qed.

Lemma match_pair_bytewise r c s :
  bytewise r ->
  match_pair r (String c s) = match_pair r (str c)
  /\ forall old new, match_pair r (str c) = Some (old, new) -> String.length old = 1%nat.
Proof.
  unfold str. induction 1 as [|[old new] r Hlen _ IH]; cbn [match_pair].
  - split; [reflexivity | discriminate].
  - destruct old as [|d [|? ?]]; try discriminate Hlen.
    rewrite !HasPrefix_char.
    destruct (Ascii.eqb c d).
    + split; [reflexivity|]. by intros ? ? [= <- _].
    + exact IH.
Qed.

Lemma Replace_bytewise r s :
  bytewise r -> Replace r s = map_chars (subst_char r) s.
Proof.
  intros Hr. unfold Replace.
  induction s as [|c s IH]; cbn [replace_from map_chars]; [reflexivity|].
  destruct (match_pair_bytewise r c s Hr) as [-> Hlen]. rewrite <-IH.
  unfold subst_char.
  destruct (match_pair r (str c)) as [[old new]|].
  - by rewrite (Hlen old new eq_refl).
  - reflexivity.
Qed.

Lemma map_chars_ext f g s :
  (forall c, f c = g c) -> map_chars f s = map_chars g s.
Proof. intros H. induction s as [|c s IH]; cbn; [reflexivity | by rewrite H, IH]. Qed.

Lemma subst_char_message c :
  subst_char MESSAGE_REPLACER c =
  if Ascii.eqb c CR then "" else if Ascii.eqb c LF then str TAB else str c.
Proof.
  unfold subst_char, MESSAGE_REPLACER, NewReplacer, str. cbn [match_pair].
  rewrite !HasPrefix_char.
  by destruct (Ascii.eqb c CR), (Ascii.eqb c LF).
Qed.

Lemma MESSAGE_REPLACER_flatten s : Replace MESSAGE_REPLACER s = flatten s.
Proof.
  rewrite Replace_bytewise.
  - apply map_chars_ext, subst_char_message.
  - repeat constructor.
Qed.

Lemma bytes_Replace_LF s : bytes_Replace s (str LF) "" = without_LF s.
Proof.
  unfold bytes_Replace, NewReplacer. rewrite Replace_bytewise.
  - apply map_chars_ext. intros c.
    unfold subst_char, str. cbn [match_pair]. rewrite HasPrefix_char.
    by destruct (Ascii.eqb c LF).
  - repeat constructor.
Qed.

(** A flattened string holds no newline. *)
Lemma without_LF_flatten s : without_LF (flatten s) = flatten s.
Proof.
  unfold without_LF, flatten.
  induction s as [|c s IH]; cbn [map_chars]; [reflexivity|].
  rewrite map_chars_append, IH. f_equal.
  destruct (Ascii.eqb c CR); [reflexivity|].
  destruct (Ascii.eqb c LF) eqn:E; [reflexivity|].
  cbn. by rewrite E.
Qed.

(** ** The body of a message *)

Lemma write_parts_S i err msg :
  write_parts (S i) err msg =
  msg +:+ String.concat "" (map (fun v => " " +:+ fmt_Sprint v) err).
Proof.
  revert i msg. induction err as [|v err IH]; intros i msg.
  - cbn. by rewrite append_empty_r.
  - cbn [write_parts map]. rewrite IH.
    replace (0 <? S i)%nat with true by reflexivity.
    unfold MESSAGE_SEPARATOR. rewrite !append_assoc. f_equal.
    destruct err as [|v' err]; cbn; [by rewrite append_empty_r | reflexivity].
Qed.

Lemma joined_cons v err :
  joined (v :: err) =
  fmt_Sprint v +:+ String.concat "" (map (fun v => " " +:+ fmt_Sprint v) err).
Proof.
  unfold joined. revert v. induction err as [|v' err IH]; intros v.
  - cbn. by rewrite append_empty_r.
  - specialize (IH v'). cbn [map String.concat] in *. rewrite IH.
    destruct err as [|v'' err]; cbn; [by rewrite !append_empty_r|].
    by rewrite !append_assoc.
Qed.

Lemma write_parts_joined err : write_parts 0 err "" = joined err.
Proof.
  destruct err as [|v err]; [reflexivity|].
  cbn [write_parts]. rewrite write_parts_S, joined_cons. reflexivity.
Qed.

Lemma message_body_flatten err : message_body err = flatten (joined err).
Proof. unfold message_body. by rewrite MESSAGE_REPLACER_flatten, write_parts_joined. Qed.

(** The message is the prefix without its newlines, then the flattened
    body. *)
Lemma format_message_shape typeLog err tr callers host now :
  format_message typeLog err tr callers host now =
  without_LF (message_prefix typeLog now host (trace_line tr callers))
  +:+ flatten (joined err).
Proof.
  unfold format_message, log_Output, message_prefix.
  rewrite bytes_Replace_LF, message_body_flatten. unfold without_LF.
  rewrite !map_chars_append. fold (without_LF (flatten (joined err))).
  rewrite without_LF_flatten. cbn [map_chars String.append].
  rewrite !append_assoc. do 8 f_equal.
  destruct (ends_with LF (flatten (joined err))); cbn; by rewrite ?append_empty_r.
Qed.

Lemma concat_empty_cons (x : string) (xs : list string) :
  String.concat "" (x :: xs) = x +:+ String.concat "" xs.
Proof. destruct xs; cbn [String.concat]; by rewrite ?append_empty_r. Qed.

Lemma concat_empty_app (xs ys : list string) :
  String.concat "" (xs ++ ys) = String.concat "" xs +:+ String.concat "" ys.
Proof.
  induction xs as [|x xs IH]; [reflexivity|].
  rewrite <-app_comm_cons, !concat_empty_cons, IH. by rewrite append_assoc.
Qed.

(** Splitting one part in two splits the joined text at the same place. *)
Lemma joined_split (pre post : list Value) (x y : string) :
  joined (pre ++ VString (x +:+ y) :: post) =
  joined (pre ++ [VString x]) +:+ joined (VString y :: post).
Proof.
  destruct pre as [|v pre].
  - cbn [app]. rewrite !joined_cons. cbn [fmt_Sprint map String.concat].
    by rewrite append_empty_r, append_assoc.
  - rewrite <-!app_comm_cons, !joined_cons, !map_app, !concat_empty_app.
    cbn [map fmt_Sprint]. rewrite !concat_empty_cons. cbn [String.concat].
    by rewrite !append_empty_r, !append_assoc.
Qed.

Lemma flatten_append (a b : string) : flatten (a +:+ b) = flatten a +:+ flatten b.
Proof. apply map_chars_append. Qed.

(** ** The location field *)

Lemma plain_append (a b : string) : plain (a +:+ b) = plain a && plain b.
Proof.
  induction a as [|c a IH]; [reflexivity|].
  rewrite append_cons. cbn [plain]. rewrite IH. by rewrite andb_assoc.
Qed.

Lemma plain_digits (d : Decimal.uint) : plain (NilEmpty.string_of_uint d) = true.
Proof. induction d; cbn [NilEmpty.string_of_uint plain]; by rewrite ?IHd. Qed.

Lemma plain_itoa (n : nat) : plain (itoa n) = true.
Proof.
  unfold itoa, NilZero.string_of_uint.
  destruct (Nat.to_uint n) eqn:E; try reflexivity;
    rewrite <-E; apply plain_digits.
Qed.

Lemma plain_location (f : Frame) : plain (file f) = true -> plain (location f) = true.
Proof.
  intros Hf. unfold location.
  by rewrite !plain_append, Hf, plain_itoa.
Qed.

(** How the line replacer moves over a string. *)
Lemma line_replacer_colon_space (s : string) :
  replace_from LOGGER_LINE_REPLACER 0 (String COLON (String SPACE s)) =
  replace_from LOGGER_LINE_REPLACER 0 s.
Proof. by destruct s. Qed.

Lemma line_replacer_LF (s : string) :
  replace_from LOGGER_LINE_REPLACER 0 (String LF s) =
  ", " +:+ replace_from LOGGER_LINE_REPLACER 0 s.
Proof. by destruct s. Qed.

Lemma line_replacer_plain (s t : string) :
  plain s = true ->
  replace_from LOGGER_LINE_REPLACER 0 (s +:+ String COLON t) =
  s +:+ replace_from LOGGER_LINE_REPLACER 0 (String COLON t).
Proof.
  induction s as [|c s IH]; [reflexivity|].
  cbn [plain]. intros [[Hsp Hlf]%andb_prop Hs]%andb_prop.
  apply negb_true_iff, Ascii.eqb_neq in Hsp, Hlf. unfold SPACE in Hsp.
  rewrite !append_cons, <-(IH Hs). clear IH.
  cbn [replace_from].
  assert (match_pair LOGGER_LINE_REPLACER (String c (s +:+ String COLON t)) = None)
    as ->; [|reflexivity].
  unfold LOGGER_LINE_REPLACER, NewReplacer, str. cbn [match_pair].
  rewrite !HasPrefix_char.
  rewrite (proj2 (Ascii.eqb_neq c " ") Hsp), (proj2 (Ascii.eqb_neq c LF) Hlf).
  assert (HasPrefix (String c (s +:+ String COLON t)) ": " = false) as ->;
    [|reflexivity].
  unfold HasPrefix. cbn [String.prefix].
  destruct (ascii_dec ":" c); [|reflexivity].
  destruct s as [|d s]; rewrite ?append_cons, ?append_empty_l; cbn [String.prefix].
  - by destruct (ascii_dec " " ":").
  - cbn [plain] in Hs. apply andb_prop in Hs as [[Hd _]%andb_prop _].
    apply negb_true_iff, Ascii.eqb_neq in Hd. unfold SPACE in Hd.
    destruct (ascii_dec " " d); [|reflexivity]. by subst d.
Qed.

Lemma frame_text_location (f : Frame) (rest : string) :
  frame_text f +:+ rest =
  location f +:+ String COLON (String SPACE (String LF rest)).
Proof.
  unfold frame_text, formatHeader, location, str.
  by rewrite !append_assoc.
Qed.

(** The replacer turns the text of each recorded frame into its entry
    followed by a comma and a space. *)
Lemma line_replacer_frames (fs : list Frame) :
  Forall (fun f => plain (file f) = true) fs ->
  Replace LOGGER_LINE_REPLACER (String.concat "" (map frame_text fs)) =
  String.concat "" (map (fun f => location f +:+ ", ") fs).
Proof.
  unfold Replace. induction 1 as [|f fs Hf _ IH]; [reflexivity|].
  cbn [map]. rewrite !concat_empty_cons, frame_text_location.
  rewrite line_replacer_plain by by apply plain_location.
  rewrite line_replacer_colon_space, line_replacer_LF, IH.
  by rewrite append_assoc.
Qed.

Lemma TrimRight_append (a b cutset : string) :
  TrimRight (a +:+ b) cutset =
  match TrimRight b cutset with
  | EmptyString => TrimRight a cutset
  | t => a +:+ t
  end.
Proof.
  induction a as [|c a IH].
  - rewrite append_empty_l. by destruct (TrimRight b cutset).
  - rewrite append_cons. cbn [TrimRight]. rewrite IH.
    destruct (TrimRight b cutset) as [|x t]; [reflexivity|].
    rewrite append_cons. by destruct a.
Qed.

Lemma kept_append (a b : string) : kept b -> kept (a +:+ b).
Proof.
  intros [Hb Hne]. split.
  - rewrite TrimRight_append, Hb. by destruct b.
  - destruct a; [done|]. by rewrite append_cons.
Qed.

Lemma TrimRight_digits (d : Decimal.uint) :
  TrimRight (NilEmpty.string_of_uint d) ", " = NilEmpty.string_of_uint d.
Proof.
  induction d; cbn [NilEmpty.string_of_uint TrimRight]; [reflexivity|..];
    rewrite IHd; by destruct (NilEmpty.string_of_uint d).
Qed.

Lemma kept_digits (d : Decimal.uint) :
  d <> Decimal.Nil -> kept (NilEmpty.string_of_uint d).
Proof.
  intros Hd. split; [apply TrimRight_digits|]. by destruct d.
Qed.

Lemma kept_itoa (n : nat) : kept (itoa n).
Proof.
  unfold itoa, NilZero.string_of_uint.
  destruct (Nat.to_uint n) eqn:E; [by split|..];
    rewrite <-E; apply kept_digits; by rewrite E.
Qed.

Lemma kept_location (f : Frame) : kept (location f).
Proof. unfold location. do 2 apply kept_append. apply kept_itoa. Qed.

Lemma TrimRight_entries (fs : list Frame) :
  TrimRight (String.concat "" (map (fun f => location f +:+ ", ") fs)) ", " =
  String.concat ", " (map location fs).
Proof.
  induction fs as [|f fs IH]; [reflexivity|].
  cbn [map]. rewrite concat_empty_cons, TrimRight_append, IH.
  destruct fs as [|g fs].
  - cbn [map String.concat]. rewrite TrimRight_append.
    exact (proj1 (kept_location f)).
  - assert (String.concat ", " (map location (g :: fs)) <> "") as Hne.
    { cbn [map String.concat]. destruct (kept_location g) as [_ Hg].
      destruct (location g); [done|]. by destruct fs. }
    transitivity
      (location f +:+ ", " +:+ String.concat ", " (map location (g :: fs)));
      [|reflexivity].
    destruct (String.concat ", " (map location (g :: fs))); [done|].
    by rewrite append_assoc.
Qed.

(** The loop records the text of the frames [recorded] selects. *)
Lemma trace_loop_recorded tr (stack : list Frame) (depths : list nat)
    (lineBuf : string) :
  trace_loop tr stack depths lineBuf =
  lineBuf +:+ String.concat ""
    (map frame_text (recorded tr (map (fun i => Caller i stack) depths))).
Proof.
  revert lineBuf. induction depths as [|i depths IH]; intros lineBuf.
  - cbn. by rewrite append_empty_r.
  - cbn [trace_loop map recorded].
    change (log_Output "" true i stack "") with (frame_text (Caller i stack)).
    fold (is_module (Caller i stack)). fold (is_boundary (Caller i stack)).
    destruct (is_module (Caller i stack)); [apply IH|].
    destruct (is_boundary (Caller i stack)); [cbn; by rewrite append_empty_r|].
    destruct (tr =? TRACE_TYPE_ONE).
    + cbn [map String.concat]. reflexivity.
    + rewrite IH. cbn [map]. by rewrite concat_empty_cons, append_assoc.
Qed.

Lemma recorded_Forall (P : Frame -> Prop) tr (fs : list Frame) :
  Forall P fs -> Forall P (recorded tr fs).
Proof.
  induction 1 as [|f fs Hf _ IH]; cbn [recorded]; [constructor|].
  destruct (is_module f); [exact IH|].
  destruct (is_boundary f); [constructor|].
  destruct (tr =? TRACE_TYPE_ONE); repeat constructor; assumption.
Qed.

Lemma examined_Forall (P : Frame -> Prop) (callers : list Frame) :
  P {| file := "???"; line := 0 |} -> Forall P callers -> Forall P (examined callers).
Proof.
  intros H0 Hall. unfold examined. apply Forall_forall. intros f Hin.
  apply list_elem_of_fmap in Hin as [k [-> _]].
  destruct (callers !! k) as [g|] eqn:E; cbn [default]; [|exact H0].
  eapply Forall_forall; [exact Hall|]. by eapply list_elem_of_lookup_2.
Qed.

(** The variable [line] of [makeMessage], for plain file names. *)
Lemma trace_line_recorded tr (callers : list Frame) :
  Forall (fun f => plain (file f) = true) callers ->
  trace_line tr callers =
  String.concat ", " (map location (recorded tr (examined callers))).
Proof.
  intros Hplain. unfold trace_line.
  rewrite trace_loop_recorded, append_empty_l.
  change (map _ (seq 2 4)) with (examined callers).
  rewrite line_replacer_frames; [apply TrimRight_entries|].
  by apply recorded_Forall, examined_Forall.
Qed.

(** With only the caller asked for, the first entry of the full trace is
    recorded. *)
Lemma recorded_one (fs : list Frame) :
  recorded TRACE_TYPE_ONE fs = take 1 (recorded TRACE_TYPE_ANY fs).
Proof.
  induction fs as [|f fs IH]; [reflexivity|]. cbn [recorded].
  destruct (is_module f); [exact IH|].
  destruct (is_boundary f); reflexivity.
Qed.

(** ** The tag of a message *)

Lemma HasPrefix_append (p s : string) : HasPrefix (p +:+ s) p = true.
Proof.
  unfold HasPrefix. induction p as [|c p IH].
  - by destruct s.
  - rewrite append_cons. cbn [String.prefix]. by destruct (ascii_dec c c).
Qed.


(** ** Running the computations *)

Lemma bind_run {A B} (m : Go A) (k : A -> Go B) (w : World) (a : A)
    (t : list Event) (w' : World) :
  m w = {| trace := t; world := w'; result := Done a |} ->
  (m ≫= k) w =
  {| trace := t ++ trace (k a w'); world := world (k a w');
     result := result (k a w') |}.
Proof.
  intros Hm. unfold mbind, Go_bind, go_bind. rewrite Hm. reflexivity.
Qed.

Lemma bind_panic {A B} (m : Go A) (k : A -> Go B) (w : World) (v : string)
    (t : list Event) (w' : World) :
  m w = {| trace := t; world := w'; result := Panicked v |} ->
  (m ≫= k) w = {| trace := t; world := w'; result := Panicked v |}.
Proof.
  intros Hm. unfold mbind, Go_bind, go_bind. rewrite Hm. reflexivity.
Qed.

Lemma makeMessage_run typeLog err tr callers w :
  makeMessage typeLog err tr callers w =
  {| trace := build_events w;
     world := built w;
     result := Done (format_message typeLog err tr callers (host_of w) (clock w)) |}.
Proof.
  unfold makeMessage, build_events, built, host_of.
  unfold mbind, Go_bind, go_bind, mret, Go_ret, go_ret. cbn.
  destruct w as [h hn ck]; cbn.
  destruct (String.length h =? 0)%nat; reflexivity.
Qed.

Lemma Sprintf_then {B} fmt_Sprintf format params (k : string -> Go B) w :
  (Sprintf fmt_Sprintf format params ≫= k) w =
  after_event (ESprintf format params) (k (fmt_Sprintf format params) w).
Proof. reflexivity. Qed.

Section Dispatch.

Variable sinks : nat -> Method -> string -> Result string.

(** The loop over sinks that return and leave the buffer alone. *)
Lemma dispatch_unchanged l m ids msg w :
  Forall (fun p => sinks (sink p) m msg = Ok msg) (resolved l ids) ->
  dispatch sinks l m ids msg w =
  {| trace := map (fun p => ECall p m msg) (resolved l ids);
     world := w; result := Done tt |}.
Proof.
  unfold resolved. induction ids as [|pID ids IH]; cbn [dispatch omap list_omap].
  - reflexivity.
  - destruct (providers l !! pID) as [p|]; [|exact IH].
    intros [Hp Hrest]%Forall_cons.
    erewrite bind_run; [|unfold call; by rewrite Hp].
    rewrite (IH Hrest). reflexivity.
Qed.


(** The loop over sinks that return, whatever they leave in the buffer:
    each is called once, in order, the first with the message. *)
Lemma dispatch_returns l m ids msg w :
  Forall (returns sinks m) (resolved l ids) ->
  exists calls,
    dispatch sinks l m ids msg w =
      {| trace := calls; world := w; result := Done tt |}
    /\ dispatched m (resolved l ids) msg calls.
Proof.
  unfold resolved, dispatched. revert msg.
  induction ids as [|pID ids IH]; intros msg Hret; cbn [dispatch omap list_omap] in *.
  - exists []. repeat split. constructor.
  - destruct (providers l !! pID) as [p|]; [|by apply IH].
    apply Forall_cons in Hret as [Hp Hret].
    destruct (Hp msg) as [buf Hbuf].
    destruct (IH buf Hret) as (calls & Hrun & Hcalled & Hall & _).
    exists (ECall p m msg :: calls).
    erewrite bind_run; [|unfold call; by rewrite Hbuf].
    rewrite Hrun. cbn [trace world result app]. repeat split.
    + unfold called_sinks in *. cbn [omap list_omap]. by rewrite Hcalled.
    + constructor; [eauto | done].
Qed.

Lemma leaves_buffer_returns m p : leaves_buffer sinks m p -> returns sinks m p.
Proof. intros H buf. exists buf. apply H. Qed.



(** The entry points in terms of the loop. *)
Lemma Error_unfold l parts callers w :
  Error sinks l parts callers w =
  let d := dispatch sinks l MError (errorProviders l)
             (format_message "ERROR" parts (traceType l) (frame 144 :: callers)
                (host_of w) (clock w)) (built w) in
  {| trace := build_events w ++ trace d; world := world d; result := result d |}.
Proof. unfold Error. erewrite bind_run by apply makeMessage_run. reflexivity. Qed.

Lemma Log_unfold l parts callers w :
  Log sinks l parts callers w =
  if level l <? LEVEL_INFO then {| trace := []; world := w; result := Done tt |}
  else
    let d := dispatch sinks l MLog (logProviders l)
               (format_message "LOG" parts (traceType l) (frame 129 :: callers)
                  (host_of w) (clock w)) (built w) in
    {| trace := build_events w ++ trace d; world := world d; result := result d |}.
Proof.
  unfold Log. destruct (level l <? LEVEL_INFO); [reflexivity|].
  erewrite bind_run by apply makeMessage_run. reflexivity.
Qed.

Lemma Debug_unfold l parts callers w :
  Debug sinks l parts callers w =
  if level l <? LEVEL_DEBUG then {| trace := []; world := w; result := Done tt |}
  else
    let d := dispatch sinks l MDebug (debugProviders l)
               (format_message "DEBUG" parts (traceType l) (frame 166 :: callers)
                  (host_of w) (clock w)) (built w) in
    {| trace := build_events w ++ trace d; world := world d; result := result d |}.
Proof.
  unfold Debug. destruct (level l <? LEVEL_DEBUG); [reflexivity|].
  erewrite bind_run by apply makeMessage_run. reflexivity.
Qed.

Lemma Fatal_unfold l parts callers w :
  Fatal sinks l parts callers w =
  let d := dispatch sinks l MFatal (fatalProviders l)
             (format_message "FATAL" parts (traceType l) (frame 180 :: callers)
                (host_of w) (clock w)) (built w) in
  match result d with
  | Done _ =>
      {| trace := build_events w ++ trace d ++ [EExit 1]; world := world d;
         result := Exited 1 |}
  | Exited code =>
      {| trace := build_events w ++ trace d; world := world d;
         result := Exited code |}
  | Panicked v =>
      {| trace := build_events w ++ trace d; world := world d;
         result := Panicked v |}
  end.
Proof.
  unfold Fatal. erewrite bind_run by apply makeMessage_run. cbn zeta.
  unfold mbind, Go_bind, go_bind.
  destruct (dispatch _ _ _ _ _ _) as [t w' [[]|code|v]]; cbn;
    rewrite ?app_nil_r; reflexivity.
Qed.

End Dispatch.

(** ** The routing lists *)

Lemma alreadyRegistred_elem_of (id : string) (idsList : list string) :
  alreadyRegistred id idsList = true <-> id ∈ idsList.
Proof.
  induction idsList as [|val idsList IH]; cbn [alreadyRegistred].
  - split; [discriminate | by intros ?%elem_of_nil].
  - rewrite elem_of_cons. destruct (String.eqb_spec val id) as [->|Hne].
    + split; [by left | reflexivity].
    + rewrite IH. split; [by right | by intros [->|?]].
Qed.

Lemma get_set_field (f g : Field) (ids : list string) (l : Logger) :
  get_field g (set_field f ids l) = if decide (f = g) then ids else get_field g l.
Proof. by destruct f, g. Qed.

Lemma providers_set_field (f : Field) (ids : list string) (l : Logger) :
  providers (set_field f ids l) = providers l.
Proof. by destruct f. Qed.

Lemma set_get_field (f : Field) (l : Logger) : set_field f (get_field f l) l = l.
Proof. by destruct f, l. Qed.

Lemma AddProvider_Ok (f : Field) (provIDs : list string) (l : Logger) :
  AddProvider f provIDs l =
  Ok (set_field f (add_loop (providers l) provIDs (get_field f l)) l).
Proof. by destruct f. Qed.

Lemma first_occurrences_elem_of (x : string) (ids : list string) :
  x ∈ first_occurrences ids <-> x ∈ ids.
Proof.
  induction ids as [|id ids IH]; cbn [first_occurrences]; [done|].
  rewrite !elem_of_cons, list_elem_of_filter, IH.
  destruct (decide (x = id)); intuition congruence.
Qed.

Lemma first_occurrences_NoDup (ids : list string) : NoDup (first_occurrences ids).
Proof.
  induction ids as [|id ids IH]; cbn [first_occurrences]; [constructor|].
  apply NoDup_cons. split.
  - rewrite list_elem_of_filter. intros [Hne _]. by apply Hne.
  - by apply NoDup_filter.
Qed.

Lemma filter_absent (x : string) (ids : list string) :
  x ∉ ids -> filter (fun y => y ≠ x) ids = ids.
Proof.
  induction ids as [|id ids IH]; [done|].
  intros [Hne Hnot]%not_elem_of_cons.
  rewrite filter_cons_True by congruence. by rewrite IH.
Qed.

Lemma first_occurrences_id (ids : list string) :
  NoDup ids -> first_occurrences ids = ids.
Proof.
  induction 1 as [|id ids Hnot _ IH]; cbn [first_occurrences]; [done|].
  by rewrite IH, filter_absent.
Qed.

Lemma filter_all {A} (P : A -> Prop) `{!forall x, Decision (P x)} (l : list A) :
  (forall x, x ∈ l -> P x) -> filter P l = l.
Proof.
  induction l as [|x l IH]; [done|]. intros Hall.
  rewrite filter_cons_True by (apply Hall; left).
  rewrite IH; [done|]. intros y Hy. apply Hall. by right.
Qed.

Lemma filter_none {A} (P : A -> Prop) `{!forall x, Decision (P x)} (l : list A) :
  (forall x, x ∈ l -> ~ P x) -> filter P l = [].
Proof.
  induction l as [|x l IH]; [done|]. intros Hall.
  rewrite filter_cons_False by (apply Hall; left).
  apply IH. intros y Hy. apply Hall. by right.
Qed.

Lemma first_occurrences_app (a b : list string) :
  first_occurrences (a ++ b) =
  first_occurrences a ++ filter (fun y => y ∉ a) (first_occurrences b).
Proof.
  induction a as [|x a IH]; cbn [app first_occurrences].
  - symmetry. apply filter_all. intros y _. apply not_elem_of_nil.
  - rewrite IH, filter_app, list_filter_filter. do 2 f_equal.
    apply list_filter_iff. intros y. rewrite not_elem_of_cons. tauto.
Qed.

Lemma first_occurrences_absorb (a b : list string) :
  first_occurrences (first_occurrences a ++ b) = first_occurrences (a ++ b).
Proof.
  rewrite !first_occurrences_app.
  rewrite (first_occurrences_id _ (first_occurrences_NoDup a)). f_equal.
  apply list_filter_iff. intros y. by rewrite first_occurrences_elem_of.
Qed.

Lemma first_occurrences_present (a b : list string) (id : string) :
  id ∈ a -> first_occurrences (a ++ id :: b) = first_occurrences (a ++ b).
Proof.
  intros Hin. rewrite !first_occurrences_app. f_equal. cbn [first_occurrences].
  rewrite filter_cons_False by tauto.
  rewrite list_filter_filter. apply list_filter_iff. intros y.
  split; [tauto|]. intros Hy. split; [exact Hy | congruence].
Qed.

(** The loop of [addProvider] appends, in order and once each, the
    registered identifiers that are not in the list yet. *)
Lemma add_loop_first_occurrences provs (providersIDs IDs : list string) :
  keyed provs -> NoDup IDs ->
  add_loop provs providersIDs IDs =
  first_occurrences (IDs ++ filter (fun id => id ∈ dom provs) providersIDs).
Proof.
  intros Hkey. revert IDs.
  induction providersIDs as [|id ids IH]; intros IDs Hnd; cbn [add_loop].
  - by rewrite filter_nil, app_nil_r, first_occurrences_id.
  - destruct (provs !! id) as [p|] eqn:Hp.
    + rewrite (Hkey _ _ Hp).
      rewrite filter_cons_True by (apply elem_of_dom; eauto).
      destruct (alreadyRegistred id IDs) eqn:Hreg; cbn [negb].
      * apply alreadyRegistred_elem_of in Hreg.
        rewrite first_occurrences_present by done. by apply IH.
      * assert (id ∉ IDs) as Hnot.
        { intros Hin%alreadyRegistred_elem_of. congruence. }
        rewrite IH.
        -- by rewrite <-app_assoc.
        -- apply NoDup_app. split; [done|]. split; [|apply NoDup_singleton].
           intros x Hx ->%list_elem_of_singleton. done.
    + rewrite filter_cons_False by (rewrite elem_of_dom, Hp; by intros [? ?]).
      by apply IH.
Qed.

(** An identifier that is no key of the registry is passed over. *)
Lemma add_loop_unregistered provs (pre post IDs : list string) (id : string) :
  provs !! id = None ->
  add_loop provs (pre ++ id :: post) IDs = add_loop provs (pre ++ post) IDs.
Proof.
  intros Hid. revert IDs. induction pre as [|x pre IH]; intros IDs; cbn [app add_loop].
  - by rewrite Hid.
  - destruct (provs !! x); [|apply IH].
    destruct (negb (alreadyRegistred (GetID p) IDs)); apply IH.
Qed.

(** ** Loggers set up through the configuration interface *)

Lemma NewLogger_well_formed : well_formed NewLogger.
Proof.
  split.
  - intros k p. cbn [NewLogger providers]. by rewrite lookup_empty.
  - intros []; constructor.
  - intros [] id Hin; by apply elem_of_nil in Hin.
Qed.

Lemma RegisterProvider_well_formed p l :
  well_formed l -> well_formed (RegisterProvider p l).
Proof.
  intros [Hkey Hnd Hlisted]. split.
  - intros k q. cbn [RegisterProvider providers].
    rewrite lookup_insert. case_decide; [by intros [= <-] | apply Hkey].
  - intros f. specialize (Hnd f). by destruct f.
  - intros f id Hin. cbn [RegisterProvider providers].
    rewrite lookup_insert. case_decide; [eauto|].
    apply (Hlisted f). by destruct f.
Qed.

Lemma AddProvider_well_formed f provIDs l :
  well_formed l ->
  well_formed (set_field f (add_loop (providers l) provIDs (get_field f l)) l).
Proof.
  intros [Hkey Hnd Hlisted]. split.
  - by rewrite providers_set_field.
  - intros g. rewrite get_set_field. case_decide; [|apply Hnd].
    rewrite add_loop_first_occurrences by done. apply first_occurrences_NoDup.
  - intros g id. rewrite providers_set_field, get_set_field. case_decide; [|apply Hlisted].
    rewrite add_loop_first_occurrences by done.
    rewrite first_occurrences_elem_of, elem_of_app, list_elem_of_filter.
    intros [Hin|[Hdom _]]; [by apply (Hlisted f) | by apply elem_of_dom].
Qed.

Lemma SetTraceType_fields val l f :
  get_field f (fst (SetTraceType val l)) = get_field f l
  /\ providers (fst (SetTraceType val l)) = providers l.
Proof.
  unfold SetTraceType.
  destruct (negb (val =? TRACE_TYPE_ONE) && negb (val =? TRACE_TYPE_ANY));
    by destruct f.
Qed.

Lemma SetTraceType_well_formed val l :
  well_formed l -> well_formed (fst (SetTraceType val l)).
Proof.
  intros [Hkey Hnd Hlisted]. split.
  - by rewrite (proj2 (SetTraceType_fields val l logField)).
  - intros f. rewrite (proj1 (SetTraceType_fields val l f)). apply Hnd.
  - intros f id. rewrite (proj1 (SetTraceType_fields val l f)),
      (proj2 (SetTraceType_fields val l f)). apply Hlisted.
Qed.

Lemma SetLevel_well_formed lvl l : well_formed l -> well_formed (SetLevel lvl l).
Proof.
  intros [Hkey Hnd Hlisted]. split; [done| |].
  - intros f. specialize (Hnd f). by destruct f.
  - intros f id. specialize (Hlisted f id). by destruct f.
Qed.

(** Every sequence of configuration calls runs to its end, on a
    well-formed logger leaves a well-formed logger, and each routing list
    ends up as the first occurrences of what it held followed by what was
    attached to it. *)
Lemma setup_well_formed (ops : list Op) (l : Logger) :
  well_formed l ->
  exists l', setup ops l = Ok l' /\ well_formed l'
    /\ forall f, get_field f l' =
         first_occurrences (get_field f l ++ attached f ops (dom (providers l))).
Proof.
  revert l. induction ops as [|op ops IH]; intros l Hwf.
  - exists l. split; [done|]. split; [done|]. intros f. cbn [attached].
    rewrite app_nil_r, first_occurrences_id; [done | apply Hwf].
  - destruct op as [p|g provIDs|lvl|val]; cbn [setup run_op].
    + destruct (IH _ (RegisterProvider_well_formed p l Hwf)) as (l' & Hrun & Hwf' & Hf).
      exists l'. split; [done|]. split; [done|]. intros f. rewrite Hf.
      cbn [attached RegisterProvider providers]. rewrite dom_insert_L.
      by destruct f.
    + rewrite AddProvider_Ok.
      destruct (IH _ (AddProvider_well_formed g provIDs l Hwf)) as (l' & Hrun & Hwf' & Hf).
      exists l'. split; [done|]. split; [done|]. intros f. rewrite Hf.
      cbn [attached]. rewrite get_set_field.
      rewrite providers_set_field.
      case_decide as Hgf.
      * rewrite add_loop_first_occurrences by apply Hwf.
        subst g. by rewrite first_occurrences_absorb, <-app_assoc.
      * done.
    + destruct (IH _ (SetLevel_well_formed lvl l Hwf)) as (l' & Hrun & Hwf' & Hf).
      exists l'. split; [done|]. split; [done|]. intros f. rewrite Hf.
      by destruct f.
    + destruct (IH _ (SetTraceType_well_formed val l Hwf)) as (l' & Hrun & Hwf' & Hf).
      exists l'. split; [done|]. split; [done|]. intros f. rewrite Hf.
      cbn [attached].
      by rewrite (proj1 (SetTraceType_fields val l f)),
        (proj2 (SetTraceType_fields val l f)).
Qed.

(** On a well-formed logger every listed identifier resolves to a sink
    reporting it. *)
Lemma resolved_ids (l : Logger) (f : Field) :
  well_formed l -> map GetID (resolved l (get_field f l)) = get_field f l.
Proof.
  intros [Hkey _ Hlisted]. unfold resolved.
  specialize (Hlisted f). induction (get_field f l) as [|id ids IH]; [done|].
  cbn [omap list_omap].
  destruct (Hlisted id) as [p Hp]; [by left|]. rewrite Hp. cbn [map].
  rewrite (Hkey _ _ Hp). f_equal. apply IH. intros x Hx. apply Hlisted. by right.
Qed.

Lemma called_ids_calls (m : Method) (msg : string) (ps : list ProviderInterface) :
  called_ids (map (fun p => ECall p m msg) ps) = map GetID ps.
Proof. induction ps as [|p ps IH]; [done|]. cbn. by f_equal. Qed.

Lemma called_ids_build_events (w : World) (t : list Event) :
  called_ids (build_events w ++ t) = called_ids t.
Proof.
  unfold build_events, called_ids.
  by destruct (String.length (HOST w) =? 0)%nat.
Qed.

(** ** The sinks an entry point calls *)

Lemma called_ids_sinks (t : list Event) : called_ids t = map GetID (called_sinks t).
Proof.
  unfold called_ids, called_sinks.
  induction t as [|[| | |p m msg|] t IH]; cbn [omap list_omap map]; by rewrite ?IH.
Qed.

Lemma called_ids_app (t t' : list Event) :
  called_ids (t ++ t') = called_ids t ++ called_ids t'.
Proof. unfold called_ids. apply omap_app. Qed.

Section Calls.

Variable sinks : nat -> Method -> string -> Result string.

(** Whatever the sinks do, the sinks called are the first ones of the list,
    none of them passed over. *)
Lemma dispatch_prefix l m ids msg w :
  exists k, called_sinks (trace (dispatch sinks l m ids msg w)) =
            take k (resolved l ids).
Proof.
  unfold resolved. revert msg.
  induction ids as [|pID ids IH]; intros msg; cbn [dispatch omap list_omap].
  - by exists 0%nat.
  - destruct (providers l !! pID) as [p|]; [|apply IH].
    destruct (sinks (sink p) m msg) as [buf|v] eqn:Hp.
    + erewrite bind_run; [|unfold call; by rewrite Hp].
      destruct (IH buf) as [k Hk]. exists (S k).
      cbn [trace app take]. unfold called_sinks in *. cbn [omap list_omap].
      by rewrite Hk.
    + erewrite bind_panic; [|unfold call; by rewrite Hp].
      exists 1%nat. cbn [trace take]. by rewrite take_0.
Qed.

Lemma called_ids_dispatch_prefix l m ids msg w :
  exists k, called_ids (trace (dispatch sinks l m ids msg w)) =
            take k (map GetID (resolved l ids)).
Proof.
  destruct (dispatch_prefix l m ids msg w) as [k Hk]. exists k.
  by rewrite called_ids_sinks, Hk, firstn_map.
Qed.

Lemma called_ids_dispatch_returns l m ids msg w :
  Forall (returns sinks m) (resolved l ids) ->
  called_ids (trace (dispatch sinks l m ids msg w)) = map GetID (resolved l ids).
Proof.
  intros Hret.
  destruct (dispatch_returns sinks l m ids msg w Hret) as (calls & -> & Hcalled & _).
  cbn [trace]. by rewrite called_ids_sinks, Hcalled.
Qed.

Lemma called_ids_Error l parts callers w :
  called_ids (trace (Error sinks l parts callers w)) =
  called_ids (trace (dispatch sinks l MError (errorProviders l)
                       (format_message "ERROR" parts (traceType l)
                          (frame 144 :: callers) (host_of w) (clock w)) (built w))).
Proof. rewrite Error_unfold. cbn zeta. cbn [trace]. apply called_ids_build_events. Qed.

Lemma called_ids_Fatal l parts callers w :
  called_ids (trace (Fatal sinks l parts callers w)) =
  called_ids (trace (dispatch sinks l MFatal (fatalProviders l)
                       (format_message "FATAL" parts (traceType l)
                          (frame 180 :: callers) (host_of w) (clock w)) (built w))).
Proof.
  rewrite Fatal_unfold. cbn zeta.
  destruct (dispatch _ _ _ _ _ _) as [t w' [[]|code|v]]; cbn [trace result];
    rewrite called_ids_build_events; [|done..].
  rewrite called_ids_app. apply app_nil_r.
Qed.

Lemma called_ids_Log l parts callers w :
  called_ids (trace (Log sinks l parts callers w)) =
  if level l <? LEVEL_INFO then []
  else called_ids (trace (dispatch sinks l MLog (logProviders l)
                            (format_message "LOG" parts (traceType l)
                               (frame 129 :: callers) (host_of w) (clock w))
                            (built w))).
Proof.
  rewrite Log_unfold. destruct (level l <? LEVEL_INFO); [reflexivity|].
  cbn zeta. cbn [trace]. apply called_ids_build_events.
Qed.

Lemma called_ids_Debug l parts callers w :
  called_ids (trace (Debug sinks l parts callers w)) =
  if level l <? LEVEL_DEBUG then []
  else called_ids (trace (dispatch sinks l MDebug (debugProviders l)
                            (format_message "DEBUG" parts (traceType l)
                               (frame 166 :: callers) (host_of w) (clock w))
                            (built w))).
Proof.
  rewrite Debug_unfold. destruct (level l <? LEVEL_DEBUG); [reflexivity|].
  cbn zeta. cbn [trace]. apply called_ids_build_events.
Qed.

End Calls.

(** ** The message builder *)

(** C5: for every sequence of message parts, the body of the built message
    is the parts' printed forms joined by one space between consecutive
    parts, with every carriage return removed and every newline replaced by
    a tab; the message [makeMessage] returns is its prefix followed by that
    body, and the parts of the package's test flatten to the text the test
    expects. *)
Theorem makeMessage_body_flattened typeLog parts tr callers w :
  message_body parts = flatten (joined parts)
  /\ result (makeMessage typeLog parts tr callers w) =
     Done (without_LF (message_prefix typeLog (clock w) (host_of w)
                         (trace_line tr callers))
           +:+ flatten (joined parts))
  /\ message_body
       [VString ("line1" +:+ str LF +:+ "line2");
        VString ("line3" +:+ str CR +:+ str LF +:+ "line4");
        VString "text1"; VString "text2"; VInt 10] =
     "line1" +:+ str TAB +:+ "line2 line3" +:+ str TAB +:+ "line4 text1 text2 10".
Proof.
  split; [apply message_body_flatten|]. split; [|reflexivity].
  rewrite makeMessage_run. cbn [result]. f_equal. apply format_message_shape.
Qed.

(** C7, as the specification states it, fails: two consecutive newlines in
    a part become two tabs in the body, not one. *)
Lemma double_newline_two_tabs :
  message_body [VString ("a" +:+ str LF +:+ str LF +:+ "b")] =
    "a" +:+ str TAB +:+ str TAB +:+ "b"
  /\ message_body [VString ("a" +:+ str LF +:+ str LF +:+ "b")] <>
     "a" +:+ str TAB +:+ "b".
Proof. split; [reflexivity | discriminate]. Qed.

(** C7, amended: in the body of the message a carriage return followed by a
    newline inside a part collapses to exactly one tab, while every newline
    of a newline-newline sequence becomes a tab of its own, two tabs in
    all; the text before and after the sequence is flattened as usual. *)
Theorem line_breaks_in_part (pre post : list Value) (a b : string) :
  message_body (pre ++ VString (a +:+ str CR +:+ str LF +:+ b) :: post) =
    flatten (joined (pre ++ [VString a])) +:+ str TAB
    +:+ flatten (joined (VString b :: post))
  /\ message_body (pre ++ VString (a +:+ str LF +:+ str LF +:+ b) :: post) =
    flatten (joined (pre ++ [VString a])) +:+ str TAB +:+ str TAB
    +:+ flatten (joined (VString b :: post)).
Proof.
  rewrite !message_body_flatten. split.
  - rewrite joined_split, flatten_append. f_equal.
    rewrite !joined_cons. cbn [fmt_Sprint]. by rewrite !append_assoc, !flatten_append.
  - rewrite joined_split, flatten_append. f_equal.
    rewrite !joined_cons. cbn [fmt_Sprint]. by rewrite !append_assoc, !flatten_append.
Qed.

Lemma boundary_not_module (f : Frame) : is_boundary f = true -> is_module f = false.
Proof.
  unfold is_boundary, is_module, HasPrefix.
  destruct (frame_text f) as [|c s]; [reflexivity|]. cbn [String.prefix].
  destruct (ascii_dec "t" c) as [<-|]; [|discriminate]. reflexivity.
Qed.

Lemma recorded_external_frames (fs : list Frame) :
  recorded TRACE_TYPE_ANY fs = external_frames fs.
Proof.
  induction fs as [|f fs IH]; [reflexivity|]. cbn [recorded external_frames].
  destruct (is_boundary f) eqn:Hb.
  - by rewrite (boundary_not_module f Hb).
  - destruct (is_module f); [exact IH|]. cbn. by rewrite IH.
Qed.

(** When the boundary frame is among the four frames looked at, nothing of
    the walk is lost. *)
Lemma recorded_examined tr (callers : list Frame) (k : nat) (b : Frame) :
  (k < 4)%nat -> callers !! k = Some b -> is_boundary b = true ->
  recorded tr (examined callers) = recorded tr callers.
Proof.
  intros Hk Hb Hbd. pose proof (boundary_not_module b Hbd) as Hm.
  unfold examined. cbn [seq map].
  destruct k as [|[|[|[|k]]]]; [..|lia];
    destruct callers as [|f0 [|f1 [|f2 [|f3 rest]]]]; simplify_eq/=;
    rewrite ?Hm, ?Hbd;
    repeat (match goal with
            | |- context [is_module ?f] => destruct (is_module f)
            | |- context [is_boundary ?f] => destruct (is_boundary f)
            end; try reflexivity);
    rewrite ?Hm, ?Hbd; destruct (tr =? TRACE_TYPE_ONE); reflexivity.
Qed.

Lemma recorded_take tr (callers : list Frame) (k : nat) (b : Frame) :
  (k < 4)%nat -> callers !! k = Some b -> is_boundary b = true ->
  recorded tr (take 4 callers) = recorded tr callers.
Proof.
  intros Hk Hb Hbd. pose proof (boundary_not_module b Hbd) as Hm.
  destruct k as [|[|[|[|k]]]]; [..|lia];
    destruct callers as [|f0 [|f1 [|f2 [|f3 rest]]]]; simplify_eq/=;
    rewrite ?Hm, ?Hbd;
    repeat (match goal with
            | |- context [is_module ?f] => destruct (is_module f)
            | |- context [is_boundary ?f] => destruct (is_boundary f)
            end; try reflexivity);
    rewrite ?Hm, ?Hbd; destruct (tr =? TRACE_TYPE_ONE); reflexivity.
Qed.

Lemma examined_take (callers : list Frame) :
  (4 <= length callers)%nat -> examined callers = take 4 callers.
Proof.
  intros Hlen.
  destruct callers as [|f0 [|f1 [|f2 [|f3 rest]]]]; cbn in Hlen; try lia.
  reflexivity.
Qed.

Lemma recorded_examined_take tr (callers : list Frame) :
  stays_on_stack callers ->
  recorded tr (examined callers) = recorded tr (take 4 callers).
Proof.
  intros [Hlen | (k & b & Hb & Hbd)]; [by rewrite examined_take|].
  destruct (decide (k < 4)%nat) as [Hk|Hk].
  - by rewrite (recorded_examined tr callers k b), (recorded_take tr callers k b).
  - rewrite examined_take; [done|].
    apply lookup_lt_Some in Hb. lia.
Qed.

(** C6: in the full trace mode the location field is to list every frame
    outside the logging module up to the boundary frame or the end of the
    stack, and the comment of [TRACE_TYPE_ANY] says "Full stack trace".
    The loop of [makeMessage] runs over four frames whatever the stack is:
    for [Log] called at the bottom of four nested calls the outermost of
    them, which lies before the boundary frame, is missing from the field;
    and for a stack that ends within the four frames an entry "???:0" is
    listed for a frame that is not there. *)
Theorem full_trace_looks_at_four_frames :
  trace_line TRACE_TYPE_ANY deep_stack = "a.go:1, b.go:2, c.go:3"
  /\ full_location deep_stack = "a.go:1, b.go:2, c.go:3, d.go:4"
  /\ trace_line TRACE_TYPE_ANY deep_stack <> full_location deep_stack
  /\ result (makeMessage "LOG" [VString "text"] TRACE_TYPE_ANY deep_stack
               fresh_world) =
     Done "LOG: 2016-11-21T14:50:23+03:00 myhost a.go:1, b.go:2, c.go:3: text"
  /\ trace_line TRACE_TYPE_ANY short_stack = "main.go:12, asm_amd64.s:1650, ???:0"
  /\ full_location short_stack = "main.go:12, asm_amd64.s:1650".
Proof. repeat split; try reflexivity. discriminate. Qed.

(** A file name loses its spaces on the way into the location field. *)
Example spaces_of_file_names_deleted :
  trace_line TRACE_TYPE_ONE spaced_stack = "myfile.go:7".
Proof. reflexivity. Qed.

(** [makeMessage] on a stack that holds four frames above it, or a
    boundary frame, and whose file names hold neither spaces nor newlines:
    the frames of the logging module among the first four are skipped, the
    walk ends at the boundary frame, and the location field of the message
    lists the remaining frames as "<file>:<line>", innermost first,
    separated by a comma and a space: all of them in the full mode, only
    the first of them in the single mode. When the boundary frame is among
    the first four frames, the full mode lists every frame outside the
    module before the boundary. *)
Theorem location_field tr typeLog parts (callers : list Frame) w :
  Forall (fun f => plain (file f) = true) callers ->
  stays_on_stack callers ->
  trace_line tr callers =
    String.concat ", " (map location (recorded tr (take 4 callers)))
  /\ result (makeMessage typeLog parts tr callers w) =
     Done (without_LF
             (message_prefix typeLog (clock w) (host_of w)
                (String.concat ", " (map location (recorded tr (take 4 callers)))))
           +:+ flatten (joined parts))
  /\ recorded TRACE_TYPE_ONE (take 4 callers) =
     take 1 (recorded TRACE_TYPE_ANY (take 4 callers))
  /\ (forall k b, (k < 4)%nat -> callers !! k = Some b -> is_boundary b = true ->
      recorded TRACE_TYPE_ANY (take 4 callers) = external_frames callers).
Proof.
  intros Hplain Hstays.
  assert (trace_line tr callers =
          String.concat ", " (map location (recorded tr (take 4 callers)))) as Hline.
  { rewrite trace_line_recorded by done. by rewrite recorded_examined_take. }
  split; [exact Hline|]. split; [|split].
  - rewrite makeMessage_run. cbn [result]. f_equal.
    rewrite format_message_shape. by rewrite Hline.
  - apply recorded_one.
  - intros k b Hk Hb Hbd.
    rewrite (recorded_take _ callers k b Hk Hb Hbd).
    apply recorded_external_frames.
Qed.

(** The stack of [Logf] called from [TestFormat]. *)
Lemma location_field_test_stack :
  (Forall (fun f => plain (file f) = true)
     (frame 129 :: frame 122 :: test_callers)
   /\ stays_on_stack (frame 129 :: frame 122 :: test_callers))
  /\ trace_line TRACE_TYPE_ANY (frame 129 :: frame 122 :: test_callers) =
     String.concat ", "
       (map location
          (recorded TRACE_TYPE_ANY
             (take 4 (frame 129 :: frame 122 :: test_callers)))).
Proof.
  assert (Forall (fun f => plain (file f) = true)
            (frame 129 :: frame 122 :: test_callers)) as H
    by (repeat constructor).
  assert (stays_on_stack (frame 129 :: frame 122 :: test_callers)) as H'
    by (left; cbn; lia).
  split; [by split|].
  exact (proj1 (location_field TRACE_TYPE_ANY "LOG" [] _ fresh_world H H')).
Defined.
(** ** The entry points *)

(** The first call of [TestFormat], [Logf] from line 124 of the test: the
    provider panics with the message, for both trace modes; the test
    recovers the panic and compares the text. *)
Example TestFormat_Logf :
  setup (format_logger_ops TRACE_TYPE_ONE) NewLogger =
    Ok (format_logger TRACE_TYPE_ONE)
  /\ setup (format_logger_ops TRACE_TYPE_ANY) NewLogger =
    Ok (format_logger TRACE_TYPE_ANY)
  /\ Logf (fun _ _ => "format: text 10") format_sinks
    (format_logger TRACE_TYPE_ONE)
    "format: %s %d" [VString "text"; VInt 10] test_callers fresh_world =
    {| trace :=
         [ESprintf "format: %s %d" [VString "text"; VInt 10]; EHostname; ENow;
          ECall (Provider_interface 0 format_provider) MLog
            "LOG: 2016-11-21T14:50:23+03:00 myhost logger_test.go:124: format: text 10"];
       world := built fresh_world;
       result := Panicked
         "call Log: LOG: 2016-11-21T14:50:23+03:00 myhost logger_test.go:124: format: text 10" |}
  /\ Logf (fun _ _ => "format: text 10") format_sinks
    (format_logger TRACE_TYPE_ANY)
    "format: %s %d" [VString "text"; VInt 10] test_callers fresh_world =
    {| trace :=
         [ESprintf "format: %s %d" [VString "text"; VInt 10]; EHostname; ENow;
          ECall (Provider_interface 0 format_provider) MLog
            "LOG: 2016-11-21T14:50:23+03:00 myhost logger_test.go:124, logger_test.go:138: format: text 10"];
       world := built fresh_world;
       result := Panicked
         "call Log: LOG: 2016-11-21T14:50:23+03:00 myhost logger_test.go:124, logger_test.go:138: format: text 10" |}.
Proof. repeat split. Qed.




(** C2: on a logger whose level is below [LEVEL_INFO], [Log] and [Logf]
    return at once: no message is built (neither the host name nor the
    clock is read, [HOST] stays as it is), no sink is called, and [Logf]
    does not call [fmt.Sprintf]: the level is looked at before the format
    is substituted, which on a logger past the gate is the first thing
    [Logf] does. The same holds for [Debug] and [Debugf] on a logger whose
    level is below [LEVEL_DEBUG]. *)
Theorem Log_Debug_gated (fmt_Sprintf : string -> list Value -> string)
    (sinks : nat -> Method -> string -> Result string)
    l parts format params callers w :
  (level l < LEVEL_INFO ->
   Log sinks l parts callers w = {| trace := []; world := w; result := Done tt |}
   /\ Logf fmt_Sprintf sinks l format params callers w =
      {| trace := []; world := w; result := Done tt |})
  /\ (level l < LEVEL_DEBUG ->
   Debug sinks l parts callers w = {| trace := []; world := w; result := Done tt |}
   /\ Debugf fmt_Sprintf sinks l format params callers w =
      {| trace := []; world := w; result := Done tt |})
  /\ (LEVEL_INFO <= level l ->
   head (trace (Logf fmt_Sprintf sinks l format params callers w)) =
   Some (ESprintf format params))
  /\ (LEVEL_DEBUG <= level l ->
   head (trace (Debugf fmt_Sprintf sinks l format params callers w)) =
   Some (ESprintf format params)).
Proof.
  split; [|split; [|split]].
  - intros Hlvl%Z.ltb_lt. unfold Logf, Log. by rewrite Hlvl.
  - intros Hlvl%Z.ltb_lt. unfold Debugf, Debug. by rewrite Hlvl.
  - intros Hlvl%Z.ltb_ge. unfold Logf. rewrite Hlvl, Sprintf_then. reflexivity.
  - intros Hlvl%Z.ltb_ge. unfold Debugf. rewrite Hlvl, Sprintf_then. reflexivity.
Qed.

(** A logger at [LEVEL_ERROR] and one at [LEVEL_DEBUG], with the providers
    of the tests in every list. *)
Lemma gated_at_error_level :
  (level (example_logger LEVEL_ERROR) < LEVEL_INFO
   /\ level (example_logger LEVEL_ERROR) < LEVEL_DEBUG
   /\ LEVEL_INFO <= level (example_logger LEVEL_DEBUG)
   /\ LEVEL_DEBUG <= level (example_logger LEVEL_DEBUG))
  /\ Log test_sinks (example_logger LEVEL_ERROR) [VString "text"] test_callers
       fresh_world =
     {| trace := []; world := fresh_world; result := Done tt |}
  /\ Debugf (fun format _ => format) test_sinks (example_logger LEVEL_ERROR)
       "format: text" [] test_callers fresh_world =
     {| trace := []; world := fresh_world; result := Done tt |}
  /\ head (trace (Logf (fun format _ => format) test_sinks
                    (example_logger LEVEL_DEBUG) "format: text" []
                    test_callers fresh_world)) =
     Some (ESprintf "format: text" [])
  /\ head (trace (Debugf (fun format _ => format) test_sinks
                    (example_logger LEVEL_DEBUG) "format: text" []
                    test_callers fresh_world)) =
     Some (ESprintf "format: text" []).
Proof.
  assert (level (example_logger LEVEL_ERROR) < LEVEL_INFO) as H1 by reflexivity.
  assert (level (example_logger LEVEL_ERROR) < LEVEL_DEBUG) as H2 by reflexivity.
  assert (LEVEL_INFO <= level (example_logger LEVEL_DEBUG)) as H3 by discriminate.
  assert (LEVEL_DEBUG <= level (example_logger LEVEL_DEBUG)) as H4 by discriminate.
  split; [by repeat split|].
  destruct (Log_Debug_gated (fun format _ => format) test_sinks
              (example_logger LEVEL_ERROR)
              [VString "text"] "format: text" [] test_callers fresh_world)
    as (HI & HD & _).
  destruct (Log_Debug_gated (fun format _ => format) test_sinks
              (example_logger LEVEL_DEBUG)
              [VString "text"] "format: text" [] test_callers fresh_world)
    as (_ & _ & HI' & HD').
  split; [exact (proj1 (HI H1))|]. split; [exact (proj2 (HD H2))|].
  split; [exact (HI' H3) | exact (HD' H4)].
Defined.




(** C9: [SetTraceType] with a value that is neither [TRACE_TYPE_ONE] nor
    [TRACE_TYPE_ANY] returns the error "Unknown trace type." and leaves the
    logger, its trace mode included, as it was; with one of the two values
    it returns no error and stores the value, the rest of the logger
    staying as it was. *)
Theorem SetTraceType_checked val l :
  (val <> TRACE_TYPE_ONE -> val <> TRACE_TYPE_ANY ->
   SetTraceType val l = (l, Some "Unknown trace type."))
  /\ (val = TRACE_TYPE_ONE \/ val = TRACE_TYPE_ANY ->
   SetTraceType val l =
   ({| providers := providers l;
       logProviders := logProviders l;
       errorProviders := errorProviders l;
       fatalProviders := fatalProviders l;
       debugProviders := debugProviders l;
       level := level l;
       traceType := val |}, None)).
Proof.
  unfold SetTraceType. split.
  - intros H1%Z.eqb_neq H2%Z.eqb_neq. by rewrite H1, H2.
  - intros [-> | ->]; reflexivity.
Qed.

(** The values 7 and [TRACE_TYPE_ONE]. *)
Lemma SetTraceType_checked_on_example :
  (7 <> TRACE_TYPE_ONE /\ 7 <> TRACE_TYPE_ANY
   /\ SetTraceType 7 (example_logger LEVEL_INFO) =
      (example_logger LEVEL_INFO, Some "Unknown trace type."))
  /\ ((TRACE_TYPE_ONE = TRACE_TYPE_ONE \/ TRACE_TYPE_ONE = TRACE_TYPE_ANY)
      /\ snd (SetTraceType TRACE_TYPE_ONE (example_logger LEVEL_INFO)) = None
      /\ traceType (fst (SetTraceType TRACE_TYPE_ONE (example_logger LEVEL_INFO))) =
         TRACE_TYPE_ONE).
Proof.
  assert (7 <> TRACE_TYPE_ONE) as H1 by discriminate.
  assert (7 <> TRACE_TYPE_ANY) as H2 by discriminate.
  assert (TRACE_TYPE_ONE = TRACE_TYPE_ONE \/ TRACE_TYPE_ONE = TRACE_TYPE_ANY) as H3
    by (left; reflexivity).
  split.
  - split; [exact H1|]. split; [exact H2|].
    exact (proj1 (SetTraceType_checked 7 (example_logger LEVEL_INFO)) H1 H2).
  - split; [exact H3|].
    rewrite (proj2 (SetTraceType_checked TRACE_TYPE_ONE (example_logger LEVEL_INFO)) H3).
    split; reflexivity.
Defined.

(** ** The routing table *)

(** The lists [TestAddProvider] expects. *)
Example TestAddProvider :
  exists l, setup test_setup NewLogger = Ok l
    /\ errorProviders l = ["0"] /\ logProviders l = ["1"]
    /\ fatalProviders l = ["1"; "0"] /\ debugProviders l = ["2"; "0"].
Proof. eexists. split; [reflexivity|]. repeat split. Qed.

(** C4: after every sequence of configuration calls on a new logger, each
    of the four routing lists holds every identifier at most once and is
    the sequence of the identifiers attached to it (those registered at the
    time of their attachment) reduced to first occurrences: every
    identifier sits where it was first inserted and distinct identifiers
    keep the order of their registration in the list. Attaching identifiers
    that are in the list already changes nothing. *)
Theorem routing_lists_first_occurrences (ops : list Op) :
  exists l, setup ops NewLogger = Ok l
    /\ forall f,
         NoDup (get_field f l)
         /\ get_field f l = first_occurrences (attached f ops ∅)
         /\ forall provIDs,
              AddProvider f (filter (fun id => id ∈ get_field f l) provIDs) l = Ok l.
Proof.
  destruct (setup_well_formed ops NewLogger NewLogger_well_formed)
    as (l & Hrun & Hwf & Hf).
  exists l. split; [exact Hrun|]. intros f. split; [apply Hwf|]. split.
  - rewrite Hf. cbn [NewLogger providers]. rewrite dom_empty_L. by destruct f.
  - intros provIDs. rewrite AddProvider_Ok. f_equal.
    rewrite add_loop_first_occurrences by apply Hwf.
    rewrite first_occurrences_app, first_occurrences_id by apply Hwf.
    rewrite filter_none, app_nil_r; [apply set_get_field|].
    intros x. rewrite first_occurrences_elem_of, !list_elem_of_filter. tauto.
Qed.

(** C8: attaching an identifier that is no key of the registry, to any of
    the four lists and through any of the four attach functions, returns
    without a panic and leaves the logger as it was; among other identifiers
    of the same call it is passed over; and registering a sink that reports
    the identifier afterwards does not put the identifier into the list. *)
Theorem attach_unregistered_is_noop (l : Logger) (id : string) (f : Field) :
  providers l !! id = None ->
  AddProvider f [id] l = Ok l
  /\ (AddLogProvider [id] l = Ok l /\ AddErrorProvider [id] l = Ok l
      /\ AddFatalProvider [id] l = Ok l /\ AddDebugProvider [id] l = Ok l)
  /\ (forall pre post,
        AddProvider f (pre ++ id :: post) l = AddProvider f (pre ++ post) l)
  /\ (forall n,
        exists l', setup [OAdd f [id]; ORegister {| sink := n; GetID := id |}] l = Ok l'
          /\ get_field f l' = get_field f l
          /\ providers l' !! id = Some {| sink := n; GetID := id |}).
Proof.
  intros Hid.
  assert (forall g, AddProvider g [id] l = Ok l) as Hnoop.
  { intros g. rewrite AddProvider_Ok. cbn [add_loop]. rewrite Hid.
    by rewrite set_get_field. }
  split; [apply Hnoop|]. split.
  - split; [apply (Hnoop logField)|]. split; [apply (Hnoop errorField)|].
    split; [apply (Hnoop fatalField) | apply (Hnoop debugField)].
  - split.
    + intros pre post. rewrite !AddProvider_Ok.
      by rewrite add_loop_unregistered.
    + intros n. cbn [setup run_op]. rewrite Hnoop. eexists. split; [reflexivity|].
      split; [by destruct f|].
      cbn [RegisterProvider providers GetID]. apply lookup_insert_eq.
Qed.

(** The identifier "ghost", which no provider of the example reports. *)
Lemma attach_unregistered_on_example :
  providers (example_logger LEVEL_INFO) !! "ghost" = None
  /\ AddLogProvider ["ghost"] (example_logger LEVEL_INFO) =
     Ok (example_logger LEVEL_INFO)
  /\ AddFatalProvider ["1"; "ghost"; "0"] (example_logger LEVEL_INFO) =
     AddFatalProvider ["1"; "0"] (example_logger LEVEL_INFO).
Proof.
  assert (providers (example_logger LEVEL_INFO) !! "ghost" = None) as H
    by reflexivity.
  split; [exact H|].
  destruct (attach_unregistered_is_noop (example_logger LEVEL_INFO) "ghost"
              fatalField H) as (_ & (Hlog & _) & Hskip & _).
  split; [exact Hlog | exact (Hskip ["1"] ["0"])].
Defined.

(** C10: after every sequence of [RegisterProvider], attach and setter
    calls on a new logger, every identifier in any of the four routing
    lists is a key of the registry, mapped to a sink that reports it; so
    the loops of [Error] and [Fatal], and of [Log] and [Debug] when the
    level lets them pass, find a sink for each identifier of their list and
    pass none over: whatever the sinks do, the sinks called are the first
    ones of the list, and all of the list when the methods called
    return. *)
Theorem listed_ids_are_registered (ops : list Op) :
  exists l, setup ops NewLogger = Ok l
    /\ (forall f, Forall (fun id => is_Some (providers l !! id)) (get_field f l))
    /\ (forall f, map GetID (resolved l (get_field f l)) = get_field f l)
    /\ forall (sinks : nat -> Method -> string -> Result string) parts callers w,
         ((exists k, called_ids (trace (Error sinks l parts callers w)) =
                     take k (errorProviders l))
          /\ (exists k, called_ids (trace (Fatal sinks l parts callers w)) =
                        take k (fatalProviders l))
          /\ (exists k, called_ids (trace (Log sinks l parts callers w)) =
                        take k (logProviders l))
          /\ (exists k, called_ids (trace (Debug sinks l parts callers w)) =
                        take k (debugProviders l)))
         /\ ((forall n m buf, exists buf', sinks n m buf = Ok buf') ->
             called_ids (trace (Error sinks l parts callers w)) = errorProviders l
             /\ called_ids (trace (Fatal sinks l parts callers w)) = fatalProviders l
             /\ called_ids (trace (Log sinks l parts callers w)) =
                (if level l <? LEVEL_INFO then [] else logProviders l)
             /\ called_ids (trace (Debug sinks l parts callers w)) =
                (if level l <? LEVEL_DEBUG then [] else debugProviders l)).
Proof.
  destruct (setup_well_formed ops NewLogger NewLogger_well_formed)
    as (l & Hrun & Hwf & _).
  exists l. split; [exact Hrun|]. split; [|split].
  - intros f. apply Forall_forall. apply Hwf.
  - intros f. by apply resolved_ids.
  - intros sinks parts callers w.
    rewrite called_ids_Error, called_ids_Fatal, called_ids_Log, called_ids_Debug.
    pose proof (resolved_ids l errorField Hwf) as HE.
    pose proof (resolved_ids l fatalField Hwf) as HF.
    pose proof (resolved_ids l logField Hwf) as HL.
    pose proof (resolved_ids l debugField Hwf) as HD.
    cbn [get_field] in HE, HF, HL, HD.
    assert (forall m ids msg u,
              map GetID (resolved l ids) = ids ->
              exists k, called_ids (trace (dispatch sinks l m ids msg u)) = take k ids)
      as Hprefix.
    { intros m ids msg u Hids.
      destruct (called_ids_dispatch_prefix sinks l m ids msg u) as [k Hk].
      exists k. by rewrite Hk, Hids. }
    split.
    + split; [by apply Hprefix|]. split; [by apply Hprefix|]. split.
      * destruct (level l <? LEVEL_INFO); [by exists 0%nat | by apply Hprefix].
      * destruct (level l <? LEVEL_DEBUG); [by exists 0%nat | by apply Hprefix].
    + intros Hret.
      assert (forall m ids, Forall (returns sinks m) (resolved l ids)) as Hall.
      { intros m ids. apply Forall_forall. intros p _ buf. apply Hret. }
      rewrite !called_ids_dispatch_returns by apply Hall.
      rewrite HE, HF, HL, HD. done.
Qed.

(** The calls of [TestAddProvider], with sinks whose methods return. *)
Lemma listed_ids_are_registered_in_test :
  (forall n m buf, exists buf', returning_sinks n m buf = Ok buf')
  /\ exists l, setup test_setup NewLogger = Ok l
       /\ called_ids (trace (Error returning_sinks l [VString "text"]
                               test_callers fresh_world)) = errorProviders l
       /\ called_ids (trace (Fatal returning_sinks l [VString "text"]
                               test_callers fresh_world)) = fatalProviders l.
Proof.
  assert (forall n m buf, exists buf', returning_sinks n m buf = Ok buf') as H
    by (intros n m buf; by exists buf).
  split; [exact H|].
  destruct (listed_ids_are_registered test_setup) as (l & Hrun & _ & _ & Hcalls).
  exists l. split; [exact Hrun|].
  destruct (Hcalls returning_sinks [VString "text"] test_callers fresh_world)
    as (_ & Hret).
  destruct (Hret H) as (HE & HF & _). by split.
Defined.

(** * Further properties of the package *)

(** ** Attaching *)

(** [addProvider] panics exactly when its type string is none of "debug",
    "log", "error" and "fatal" (the comparison is case sensitive), and the
    four attach functions never do. *)
Theorem addProvider_type_checked (providerType : string)
    (providersIDs : list string) (l : Logger) :
  (addProvider providerType providersIDs l = Panic "Wrong type of the provider."
   <-> providerType ∉ ["debug"; "log"; "error"; "fatal"])
  /\ (forall f, exists l', AddProvider f providersIDs l = Ok l')
  /\ addProvider "Log" providersIDs l = Panic "Wrong type of the provider.".
Proof.
  split; [|split; [|reflexivity]].
  - unfold addProvider, select_field.
    rewrite !not_elem_of_cons.
    destruct (String.eqb_spec providerType "debug") as [->|H1];
      [split; [discriminate | tauto]|].
    destruct (String.eqb_spec providerType "log") as [->|H2];
      [split; [discriminate | tauto]|].
    destruct (String.eqb_spec providerType "error") as [->|H3];
      [split; [discriminate | tauto]|].
    destruct (String.eqb_spec providerType "fatal") as [->|H4];
      [split; [discriminate | tauto]|].
    split; [|reflexivity]. intros _. repeat split; try done. apply not_elem_of_nil.
  - intros f. rewrite AddProvider_Ok. eauto.
Qed.

(** What the loop of [addProvider] appends, whatever the registry holds. *)
Lemma add_loop_appends provs (providersIDs IDs : list string) :
  exists added,
    add_loop provs providersIDs IDs = IDs ++ added
    /\ NoDup added
    /\ Forall (fun x => (x ∉ IDs)
                 /\ exists id p, id ∈ providersIDs /\ provs !! id = Some p
                                 /\ GetID p = x) added.
Proof.
  revert IDs. induction providersIDs as [|id ids IH]; intros IDs; cbn [add_loop].
  - exists []. rewrite app_nil_r. repeat split; constructor.
  - assert (forall added : list string,
              Forall (fun x => (x ∉ IDs)
                /\ exists id' p, id' ∈ ids /\ provs !! id' = Some p /\ GetID p = x) added ->
              Forall (fun x => (x ∉ IDs)
                /\ exists id' p, id' ∈ id :: ids /\ provs !! id' = Some p
                                 /\ GetID p = x) added) as Hweaken.
    { intros added Hall. eapply Forall_impl; [exact Hall|].
      intros x (Hx & id' & p & Hin & Hp & Hid).
      split; [done|]. exists id', p. split; [by right | done]. }
    destruct (provs !! id) as [p|] eqn:Hp; [|destruct (IH IDs) as (a & ? & ? & ?); eauto].
    destruct (alreadyRegistred (GetID p) IDs) eqn:Hreg; cbn [negb];
      [destruct (IH IDs) as (a & ? & ? & ?); eauto|].
    assert (GetID p ∉ IDs) as Hnot.
    { intros Hin%alreadyRegistred_elem_of. congruence. }
    destruct (IH (IDs ++ [GetID p])) as (added & Heq & Hnd & Hall).
    exists (GetID p :: added). split; [by rewrite Heq, <-app_assoc|]. split.
    + apply NoDup_cons. split; [|done]. intros Hin.
      rewrite Forall_forall in Hall. destruct (Hall _ Hin) as [Hx _].
      apply Hx, elem_of_app. right. by left.
    + constructor.
      * split; [done|]. exists id, p. split; [by left | done].
      * apply Hweaken. eapply Forall_impl; [exact Hall|].
        intros x (Hx & Hex). split; [|done].
        intros Hin. apply Hx, elem_of_app. by left.
Qed.

(** Attaching only ever appends to the list it is asked for: the list
    before is a prefix of the list after, what is appended holds no
    repetition, no identifier the list held, and only identifiers reported
    by providers found under the given names; the registry, the other three
    lists, the level and the trace mode stay as they were. This holds for
    every logger, whatever its registry. *)
Theorem attach_only_appends (f : Field) (provIDs : list string) (l : Logger) :
  exists l' added,
    AddProvider f provIDs l = Ok l'
    /\ get_field f l' = get_field f l ++ added
    /\ NoDup added
    /\ Forall (fun x => (x ∉ get_field f l)
                 /\ exists id p, id ∈ provIDs /\ providers l !! id = Some p
                                 /\ GetID p = x) added
    /\ providers l' = providers l
    /\ (forall g, g <> f -> get_field g l' = get_field g l)
    /\ level l' = level l /\ traceType l' = traceType l.
Proof.
  destruct (add_loop_appends (providers l) provIDs (get_field f l))
    as (added & Heq & Hnd & Hall).
  eexists _, added. split; [apply AddProvider_Ok|].
  rewrite get_set_field, decide_True by done.
  split; [exact Heq|]. split; [exact Hnd|]. split; [exact Hall|].
  split; [apply providers_set_field|]. split; [|by destruct f].
  intros g Hg. rewrite get_set_field. by rewrite decide_False.
Qed.

(** ** Registering *)

(** Registering a sink makes it the one found under its identifier, leaves
    every other key and the four lists alone, and a second sink registered
    under the same identifier takes the place of the first: once the
    identifier is attached, messages go to the sink registered last, without
    attaching again, whatever the sinks do with them. Two Telegram providers always report the same
    identifier, so only the later one stays registered. *)
Theorem RegisterProvider_last_wins
    (sinks : nat -> Method -> string -> Result string)
    (p q : ProviderInterface) (l : Logger)
    (f : Field) (m : Method) (msg : string) (w : World) :
  GetID q = GetID p ->
  providers (RegisterProvider p l) !! GetID p = Some p
  /\ (forall k, k <> GetID p ->
        providers (RegisterProvider p l) !! k = providers l !! k)
  /\ (forall g, get_field g (RegisterProvider p l) = get_field g l)
  /\ providers (RegisterProvider q (RegisterProvider p l)) =
     providers (RegisterProvider q l)
  /\ (exists l', setup [ORegister p; OAdd f [GetID p]; ORegister q] NewLogger = Ok l'
        /\ get_field f l' = [GetID p]
        /\ trace (dispatch sinks l' m (get_field f l') msg w) = [ECall q m msg])
  /\ (forall n n' t t',
        providers (RegisterProvider (TelegramProvider_interface n' t')
                     (RegisterProvider (TelegramProvider_interface n t) l))
          !! PROVIDER_TELEGRAM = Some (TelegramProvider_interface n' t')).
Proof.
  intros Hid. cbn [RegisterProvider providers]. split; [apply lookup_insert_eq|].
  split; [intros k Hk; by apply lookup_insert_ne|].
  split; [by intros []|].
  split; [rewrite Hid; apply insert_insert_eq|].
  split; [|intros n n' t t'; apply lookup_insert_eq].
  cbn [setup run_op]. rewrite AddProvider_Ok. eexists. split; [reflexivity|].
  assert (add_loop (providers (RegisterProvider p NewLogger)) [GetID p]
            (get_field f (RegisterProvider p NewLogger)) = [GetID p]) as Hloop.
  { cbn [add_loop RegisterProvider providers].
    rewrite lookup_insert_eq. by destruct f. }
  rewrite Hloop.
  assert (get_field f
            (RegisterProvider q
               (set_field f [GetID p] (RegisterProvider p NewLogger))) = [GetID p])
    as Hf by by destruct f.
  split; [exact Hf|]. rewrite Hf. cbn [dispatch RegisterProvider providers].
  rewrite Hid, lookup_insert_eq.
  unfold mbind, Go_bind, go_bind, call. cbn [result trace].
  by destruct (sinks (sink q) m msg).
Qed.

(** Two providers reporting "7". *)
Lemma RegisterProvider_last_wins_on_example :
  GetID {| sink := 2; GetID := "7" |} = GetID {| sink := 1; GetID := "7" |}
  /\ providers (RegisterProvider {| sink := 2; GetID := "7" |}
                  (RegisterProvider {| sink := 1; GetID := "7" |} NewLogger)) =
     providers (RegisterProvider {| sink := 2; GetID := "7" |} NewLogger).
Proof.
  assert (GetID {| sink := 2; GetID := "7" |} = GetID {| sink := 1; GetID := "7" |})
    as H by reflexivity.
  split; [exact H|].
  destruct (RegisterProvider_last_wins test_sinks {| sink := 1; GetID := "7" |}
              {| sink := 2; GetID := "7" |} NewLogger logField MLog "" fresh_world H)
    as (_ & _ & _ & Hprov & _).
  exact Hprov.
Defined.

(** ** Settings *)

Lemma setup_settings (ops : list Op) (l : Logger) :
  traceType l = TRACE_TYPE_ONE \/ traceType l = TRACE_TYPE_ANY ->
  exists l', setup ops l = Ok l'
    /\ level l' = last_level ops (level l)
    /\ traceType l' = last_trace_mode ops (traceType l)
    /\ (traceType l' = TRACE_TYPE_ONE \/ traceType l' = TRACE_TYPE_ANY).
Proof.
  revert l. induction ops as [|op ops IH]; intros l Hvalid.
  - exists l. by repeat split.
  - destruct op as [p|f provIDs|lvl|val]; cbn [setup run_op last_level last_trace_mode].
    + apply (IH (RegisterProvider p l) Hvalid).
    + rewrite AddProvider_Ok.
      destruct (IH (set_field f (add_loop (providers l) provIDs (get_field f l)) l))
        as (l' & Hrun & Hlvl & Htr & Hok); [by destruct f|].
      exists l'. split; [done|]. by destruct f.
    + apply (IH (SetLevel lvl l) Hvalid).
    + unfold SetTraceType.
      destruct (val =? TRACE_TYPE_ONE) eqn:E1; cbn [negb andb orb fst].
      * apply Z.eqb_eq in E1.
        match goal with |- context [setup ops ?x] => apply (IH x) end.
        cbn [traceType]. by left.
      * destruct (val =? TRACE_TYPE_ANY) eqn:E2; cbn [negb andb orb fst].
        -- apply Z.eqb_eq in E2.
           match goal with |- context [setup ops ?x] => apply (IH x) end.
           cbn [traceType]. by right.
        -- apply (IH l Hvalid).
Qed.

(** After every sequence of configuration calls on a new logger the level
    is the value of the last [SetLevel] (0, [LEVEL_ERROR], when there was
    none), and the trace mode is the value of the last [SetTraceType] called
    with one of the two modes ([TRACE_TYPE_ONE] when there was none): a
    refused value never replaces a mode set before, so the trace mode of a
    logger is always one of the two modes. Registering and attaching change
    neither setting. *)
Theorem settings_last_call_wins (ops : list Op) :
  exists l, setup ops NewLogger = Ok l
    /\ level l = last_level ops LEVEL_ERROR
    /\ traceType l = last_trace_mode ops TRACE_TYPE_ONE
    /\ (traceType l = TRACE_TYPE_ONE \/ traceType l = TRACE_TYPE_ANY).
Proof. apply (setup_settings ops NewLogger). by left. Qed.

(** ** Entry points above their threshold *)



(** ** The host name *)

Lemma length_zero_empty (s : string) :
  (String.length s =? 0)%nat = true <-> s = "".
Proof. destruct s; cbn; split; congruence. Qed.

(** The host name is looked up when a message is built while [HOST] is
    empty, and what the lookup gives is kept in [HOST]; once [HOST] is not
    empty, building a message reads the clock only, leaves [HOST] alone and
    writes [HOST] into the message, whatever the host is called by then. A
    lookup that gives the empty name is made again for the next message. *)
Theorem host_name_cached typeLog err tr callers (w : World) :
  (HOST w <> "" ->
   makeMessage typeLog err tr callers w =
   {| trace := [ENow]; world := w;
      result := Done (format_message typeLog err tr callers (HOST w) (clock w)) |})
  /\ (HOST w = "" ->
   makeMessage typeLog err tr callers w =
   {| trace := [EHostname; ENow];
      world := {| HOST := hostname w; hostname := hostname w; clock := clock w |};
      result := Done (format_message typeLog err tr callers (hostname w) (clock w)) |})
  /\ (HOST w = "" -> hostname w <> "" ->
      forall typeLog' err' tr' callers' name now,
        trace (makeMessage typeLog' err' tr' callers'
                 {| HOST := HOST (world (makeMessage typeLog err tr callers w));
                    hostname := name; clock := now |}) = [ENow])
  /\ (HOST w = "" -> hostname w = "" ->
      world (makeMessage typeLog err tr callers w) = w).
Proof.
  rewrite !makeMessage_run. unfold build_events, built, host_of.
  split; [|split; [|split]].
  - intros Hne. destruct (String.length (HOST w) =? 0)%nat eqn:E.
    + by apply length_zero_empty in E.
    + by destruct w.
  - intros ->. reflexivity.
  - intros Hw Hh typeLog' err' tr' callers' name now.
    rewrite makeMessage_run. unfold build_events. cbn [trace world HOST].
    rewrite Hw. cbn.
    destruct (String.length (hostname w) =? 0)%nat eqn:E; [|reflexivity].
    by apply length_zero_empty in E.
  - intros Hw Hh. cbn [world]. rewrite Hw. cbn. destruct w; cbn in *. congruence.
Qed.

(** A world whose host name was looked up before, and a fresh one. *)
Lemma host_name_cached_on_example :
  (HOST {| HOST := "cached"; hostname := "renamed"; clock := "now" |} <> ""
   /\ trace (makeMessage "LOG" [] TRACE_TYPE_ONE test_callers
               {| HOST := "cached"; hostname := "renamed"; clock := "now" |}) =
      [ENow])
  /\ (HOST fresh_world = ""
      /\ HOST (world (makeMessage "LOG" [] TRACE_TYPE_ONE test_callers fresh_world)) =
         "myhost").
Proof.
  assert (HOST {| HOST := "cached"; hostname := "renamed"; clock := "now" |} <> "")
    as H1 by discriminate.
  assert (HOST fresh_world = "") as H2 by reflexivity.
  destruct (host_name_cached "LOG" [] TRACE_TYPE_ONE test_callers
              {| HOST := "cached"; hostname := "renamed"; clock := "now" |})
    as (Hc & _).
  destruct (host_name_cached "LOG" [] TRACE_TYPE_ONE test_callers fresh_world)
    as (_ & Hf & _).
  split; (split; [done|]).
  - by rewrite (Hc H1).
  - by rewrite (Hf H2).
Defined.

(** ** The text of a message *)

Lemma in_cutset_append (c : ascii) (a b : string) :
  in_cutset c (a +:+ b) = in_cutset c a || in_cutset c b.
Proof.
  induction a as [|x a IH]; [reflexivity|].
  rewrite append_cons. cbn [in_cutset]. by rewrite IH, orb_assoc.
Qed.

Lemma without_LF_no_LF (s : string) : contains_char (without_LF s) LF = false.
Proof.
  unfold contains_char, without_LF.
  induction s as [|c s IH]; [reflexivity|]. cbn [map_chars].
  rewrite in_cutset_append, IH, orb_false_r.
  destruct (Ascii.eqb c LF) eqn:E; [reflexivity|].
  unfold str. cbn [in_cutset]. by rewrite Ascii.eqb_sym, E.
Qed.

Lemma flatten_no_CR_LF (s : string) :
  contains_char (flatten s) CR = false /\ contains_char (flatten s) LF = false.
Proof.
  unfold contains_char, flatten.
  induction s as [|c s [IHcr IHlf]]; [by split|]. cbn [map_chars].
  rewrite !in_cutset_append, IHcr, IHlf, !orb_false_r.
  destruct (Ascii.eqb c CR) eqn:Ecr; [by split|].
  destruct (Ascii.eqb c LF) eqn:Elf; [by split|].
  unfold str. cbn [in_cutset].
  by rewrite (Ascii.eqb_sym CR c), (Ascii.eqb_sym LF c), Ecr, Elf.
Qed.

(** Every message is a single line: whatever the tag, the parts, the host
    name, the time and the stack are, the text [makeMessage] returns holds
    no newline, and its body holds no carriage return either. *)
Theorem message_is_one_line typeLog parts tr callers (w : World) :
  exists msg,
    result (makeMessage typeLog parts tr callers w) = Done msg
    /\ contains_char msg LF = false
    /\ contains_char (message_body parts) LF = false
    /\ contains_char (message_body parts) CR = false.
Proof.
  rewrite makeMessage_run. eexists. split; [reflexivity|].
  split; [|rewrite message_body_flatten; split; apply flatten_no_CR_LF].
  unfold format_message. rewrite bytes_Replace_LF. apply without_LF_no_LF.
Qed.

Lemma concat_space_cons (x y : string) (ys : list string) :
  String.concat " " (x :: y :: ys) = x +:+ " " +:+ String.concat " " (y :: ys).
Proof. reflexivity. Qed.

Lemma joined_app (xs ys : list Value) (x y : Value) :
  joined ((x :: xs) ++ y :: ys) = joined (x :: xs) +:+ " " +:+ joined (y :: ys).
Proof.
  unfold joined. revert x. induction xs as [|x' xs IH]; intros x.
  - reflexivity.
  - change (String.concat " " (map fmt_Sprint ((x :: x' :: xs) ++ y :: ys)))
      with (fmt_Sprint x +:+ " "
            +:+ String.concat " " (map fmt_Sprint ((x' :: xs) ++ y :: ys))).
    rewrite IH. cbn [map]. rewrite concat_space_cons. by rewrite !append_assoc.
Qed.

(** The body of a message with no parts is empty, and parts compose: the
    body of two non-empty sequences of parts one after the other is the
    body of the first, a space, and the body of the second; so passing two
    strings is passing the one string that joins them with a space. *)
Theorem message_body_composes (xs ys : list Value) (x y : Value) (a b : string) :
  message_body [] = ""
  /\ message_body ((x :: xs) ++ y :: ys) =
     message_body (x :: xs) +:+ " " +:+ message_body (y :: ys)
  /\ message_body (VString a :: VString b :: ys) =
     message_body (VString (a +:+ " " +:+ b) :: ys).
Proof.
  split; [reflexivity|]. rewrite !message_body_flatten. split.
  - by rewrite joined_app, !flatten_append.
  - f_equal. rewrite !joined_cons. cbn [map fmt_Sprint].
    rewrite concat_empty_cons. by rewrite !append_assoc.
Qed.

Lemma without_LF_id (s : string) : contains_char s LF = false -> without_LF s = s.
Proof.
  unfold contains_char, without_LF.
  induction s as [|c s IH]; [reflexivity|]. cbn [in_cutset map_chars].
  intros [Hc Hs]%orb_false_elim. rewrite (IH Hs).
  rewrite Ascii.eqb_sym in Hc. by rewrite Hc.
Qed.

Lemma contains_char_append (a b : string) (c : ascii) :
  contains_char (a +:+ b) c = contains_char a c || contains_char b c.
Proof. apply in_cutset_append. Qed.

Lemma plain_no_LF (s : string) : plain s = true -> contains_char s LF = false.
Proof.
  unfold contains_char. induction s as [|c s IH]; [reflexivity|].
  cbn [plain in_cutset]. intros [[_ Hlf]%andb_prop Hs]%andb_prop.
  rewrite (IH Hs), orb_false_r. apply negb_true_iff in Hlf.
  by rewrite Ascii.eqb_sym.
Qed.

Lemma entries_no_LF (fs : list Frame) :
  Forall (fun f => plain (file f) = true) fs ->
  contains_char (String.concat ", " (map location fs)) LF = false.
Proof.
  induction 1 as [|f fs Hf Hfs IH]; [reflexivity|].
  destruct fs as [|g fs].
  - cbn [map String.concat]. by apply plain_no_LF, plain_location.
  - change (String.concat ", " (map location (f :: g :: fs)))
      with (location f +:+ ", " +:+ String.concat ", " (map location (g :: fs))).
    rewrite !contains_char_append, IH, (plain_no_LF _ (plain_location f Hf)).
    reflexivity.
Qed.

(** The line one message makes, when the tag, the time and the host name
    hold no newline and the file names of the stack neither spaces nor
    newlines: the tag, a colon and a space, the time, a space, the host name
    ([HOST] when it is set, else the name just looked up), a space, the
    places of the recorded frames separated by a comma and a space, a colon
    and a space, and the flattened parts. *)
Theorem message_wire_format typeLog parts tr (callers : list Frame) (w : World) :
  contains_char typeLog LF = false ->
  contains_char (clock w) LF = false ->
  contains_char (host_of w) LF = false ->
  Forall (fun f => plain (file f) = true) callers ->
  result (makeMessage typeLog parts tr callers w) =
  Done (typeLog +:+ ": " +:+ clock w +:+ " " +:+ host_of w +:+ " "
        +:+ String.concat ", " (map location (recorded tr (examined callers)))
        +:+ ": " +:+ flatten (joined parts)).
Proof.
  intros Htag Hclock Hhost Hplain.
  rewrite makeMessage_run. cbn [result]. f_equal.
  rewrite format_message_shape, trace_line_recorded by done.
  rewrite without_LF_id.
  - unfold message_prefix. by rewrite !append_assoc.
  - unfold message_prefix. rewrite !contains_char_append, Htag, Hclock, Hhost.
    rewrite entries_no_LF; [reflexivity|].
    by apply recorded_Forall, examined_Forall.
Qed.

(** The line [TestFormat] expects from [Logf] with the full trace. *)
Lemma message_wire_format_in_test :
  (contains_char "LOG" LF = false
   /\ contains_char (clock fresh_world) LF = false
   /\ contains_char (host_of fresh_world) LF = false
   /\ Forall (fun f => plain (file f) = true)
        (frame 129 :: frame 122 :: test_callers))
  /\ result (makeMessage "LOG" [VString "format: text 10"] TRACE_TYPE_ANY
               (frame 129 :: frame 122 :: test_callers) fresh_world) =
     Done "LOG: 2016-11-21T14:50:23+03:00 myhost logger_test.go:124, logger_test.go:138: format: text 10".
Proof.
  assert (Forall (fun f => plain (file f) = true)
            (frame 129 :: frame 122 :: test_callers)) as H
    by (repeat constructor).
  split; [by repeat split|].
  by rewrite (message_wire_format "LOG" [VString "format: text 10"] TRACE_TYPE_ANY
                (frame 129 :: frame 122 :: test_callers) fresh_world
                eq_refl eq_refl eq_refl H).
Defined.

(** ** The location field again *)

Lemma is_module_frame (n : nat) : is_module (frame n) = true.
Proof.
  unfold is_module, frame_text, formatHeader, frame. cbn [file line].
  rewrite <-(append_assoc "logger.go" (str COLON)), append_assoc.
  apply (HasPrefix_append "logger.go:").
Qed.

Lemma filter_module_frame (n : nat) (fs : list Frame) :
  filter (fun f => is_module f = false) (frame n :: fs) =
  filter (fun f => is_module f = false) fs.
Proof.
  apply filter_cons_False. rewrite is_module_frame. congruence.
Qed.

Lemma examined_cons (f : Frame) (callers : list Frame) :
  examined (f :: callers) = f :: take 3 (examined callers).
Proof. reflexivity. Qed.

Lemma trace_line_entries tr (callers : list Frame) :
  Forall (fun f => plain (file f) = true) (recorded tr (examined callers)) ->
  trace_line tr callers =
  String.concat ", " (map location (recorded tr (examined callers))).
Proof.
  intros Hplain. unfold trace_line.
  rewrite trace_loop_recorded, append_empty_l.
  change (map _ (seq 2 4)) with (examined callers).
  rewrite line_replacer_frames by done. apply TrimRight_entries.
Qed.

Lemma recorded_length tr (fs : list Frame) :
  (length (recorded tr fs) <= length (filter (fun f => is_module f = false) fs))%nat
  /\ (tr = TRACE_TYPE_ONE -> length (recorded tr fs) <= 1)%nat
  /\ Forall (fun f => is_module f = false /\ is_boundary f = false) (recorded tr fs).
Proof.
  induction fs as [|f fs (IHlen & IHone & IHall)]; cbn [recorded].
  - repeat split; [done | cbn; lia | constructor].
  - destruct (is_module f) eqn:Hm.
    + rewrite filter_cons_False by (rewrite Hm; congruence). done.
    + rewrite filter_cons_True by done. cbn [length].
      destruct (is_boundary f) eqn:Hb; [repeat split; [cbn; lia | cbn; lia | constructor]|].
      destruct (tr =? TRACE_TYPE_ONE) eqn:Htr.
      * repeat split; [cbn; lia | cbn; lia | by repeat constructor].
      * repeat split; [cbn; lia | | by constructor].
        intros ->. discriminate.
Qed.

Lemma count_char_append (c : ascii) (a b : string) :
  count_char c (a +:+ b) = (count_char c a + count_char c b)%nat.
Proof.
  induction a as [|d a IH]; [reflexivity|].
  rewrite append_cons. cbn [count_char]. rewrite IH. lia.
Qed.

Lemma plain_count_space (s : string) : plain s = true -> count_char SPACE s = 0%nat.
Proof.
  induction s as [|c s IH]; [reflexivity|]. cbn [plain count_char].
  intros [[Hsp _]%andb_prop Hs]%andb_prop. rewrite (IH Hs).
  apply negb_true_iff in Hsp. by rewrite Hsp.
Qed.

(** The entries of a location field are separated by one space each, and
    hold none. *)
Lemma entries_count_space (fs : list Frame) :
  Forall (fun f => plain (file f) = true) fs ->
  count_char SPACE (String.concat ", " (map location fs)) = pred (length fs).
Proof.
  induction 1 as [|f fs Hf Hfs IH]; [reflexivity|].
  destruct fs as [|g fs].
  - cbn [map String.concat]. by apply plain_count_space, plain_location.
  - change (String.concat ", " (map location (f :: g :: fs)))
      with (location f +:+ ", " +:+ String.concat ", " (map location (g :: fs))).
    rewrite !count_char_append, IH, (plain_count_space _ (plain_location f Hf)).
    reflexivity.
Qed.

(** For a stack whose file names hold neither spaces nor newlines, the
    location field is made of the places of the frames recorded among the
    four frames looked at: at most four entries, none of them a frame of
    the logging module or the boundary frame, and at most one entry when
    only the caller is asked for. Through [Log], [Error], [Debug] and
    [Fatal], whose own frame is among the four looked at, it holds at most
    three entries, and through [Logf], [Errorf], [Debugf] and [Fatalf] at
    most two, however deep the stack of the caller is. The entries are
    counted in the text of the field as well: it holds one space for each
    entry after the first. *)
Theorem location_entries_bounded tr (callers : list Frame) (n m : nat) :
  Forall (fun f => plain (file f) = true) callers ->
  let fs := recorded tr (examined callers) in
  let fs1 := recorded tr (examined (frame n :: callers)) in
  let fs2 := recorded tr (examined (frame n :: frame m :: callers)) in
  (trace_line tr callers = String.concat ", " (map location fs)
   /\ (length fs <= 4)%nat
   /\ (tr = TRACE_TYPE_ONE -> length fs <= 1)%nat
   /\ Forall (fun f => is_module f = false /\ is_boundary f = false) fs
   /\ count_char SPACE (trace_line tr callers) = pred (length fs)
   /\ (count_char SPACE (trace_line tr callers) <= 3)%nat)
  /\ (trace_line tr (frame n :: callers) = String.concat ", " (map location fs1)
   /\ fs1 = recorded tr (take 3 (examined callers))
   /\ (length fs1 <= 3)%nat
   /\ (count_char SPACE (trace_line tr (frame n :: callers)) <= 2)%nat)
  /\ (trace_line tr (frame n :: frame m :: callers) =
        String.concat ", " (map location fs2)
   /\ fs2 = recorded tr (take 2 (examined callers))
   /\ (length fs2 <= 2)%nat
   /\ (count_char SPACE (trace_line tr (frame n :: frame m :: callers)) <= 1)%nat).
Proof.
  intros Hplain. cbn zeta.
  assert (forall cs, Forall (fun f => plain (file f) = true) cs ->
            Forall (fun f => plain (file f) = true) (recorded tr (examined cs)))
    as Hrec by (intros cs Hcs; by apply recorded_Forall, examined_Forall).
  assert (forall cs (k : nat),
            Forall (fun f => plain (file f) = true) cs ->
            (length (recorded tr (examined cs)) <= k)%nat ->
            trace_line tr cs =
              String.concat ", " (map location (recorded tr (examined cs)))
            /\ count_char SPACE (trace_line tr cs) =
               pred (length (recorded tr (examined cs)))
            /\ (count_char SPACE (trace_line tr cs) <= pred k)%nat) as Hline.
  { intros cs k Hcs Hk.
    rewrite trace_line_entries by by apply Hrec.
    rewrite entries_count_space by by apply Hrec.
    split; [done|]. split; [done|]. lia. }
  assert (forall k, recorded tr (examined (frame k :: callers)) =
                    recorded tr (take 3 (examined callers))) as Hone.
  { intros k. rewrite examined_cons. cbn [recorded]. by rewrite is_module_frame. }
  assert (forall k k', recorded tr (examined (frame k :: frame k' :: callers)) =
                       recorded tr (take 2 (examined callers))) as Htwo.
  { intros k k'. rewrite !examined_cons. cbn [take recorded].
    by rewrite !is_module_frame. }
  assert (forall k, (length (recorded tr (take k (examined callers))) <= k)%nat)
    as Hlen.
  { intros k. destruct (recorded_length tr (take k (examined callers))) as (Hl & _).
    etrans; [exact Hl|]. etrans; [apply length_filter|].
    rewrite length_take. lia. }
  split; [|split].
  - destruct (recorded_length tr (examined callers)) as (Hl & Hone' & Hall).
    assert (length (recorded tr (examined callers)) <= 4)%nat as H4.
    { etrans; [exact Hl|]. etrans; [apply length_filter|]. by cbn. }
    destruct (Hline callers 4%nat Hplain H4) as (Heq & Hcount & Hbound).
    done.
  - assert (length (recorded tr (examined (frame n :: callers))) <= 3)%nat as H3
      by (rewrite Hone; apply Hlen).
    destruct (Hline (frame n :: callers) 3%nat) as (Heq & _ & Hbound);
      [by constructor | exact H3 |].
    done.
  - assert (length (recorded tr (examined (frame n :: frame m :: callers))) <= 2)%nat
      as H2 by (rewrite Htwo; apply Hlen).
    destruct (Hline (frame n :: frame m :: callers) 2%nat) as (Heq & _ & Hbound);
      [by repeat constructor | exact H2 |].
    done.
Qed.

(** The stack of [Logf] called from [TestFormat]. *)
Lemma location_entries_bounded_on_test_stack :
  Forall (fun f => plain (file f) = true) test_callers
  /\ trace_line TRACE_TYPE_ANY (frame 129 :: frame 122 :: test_callers) =
     String.concat ", "
       (map location
          [ {| file := "logger_test.go"; line := 124 |};
            {| file := "logger_test.go"; line := 138 |} ])
  /\ (count_char SPACE
        (trace_line TRACE_TYPE_ANY (frame 129 :: frame 122 :: test_callers)) <= 1)%nat.
Proof.
  assert (Forall (fun f => plain (file f) = true) test_callers) as H
    by (repeat constructor).
  split; [exact H|].
  destruct (location_entries_bounded TRACE_TYPE_ANY test_callers 129 122 H)
    as (_ & _ & Heq & _ & _ & Hcount).
  split; [exact Heq | exact Hcount].
Defined.

(** When only the caller is asked for, the location field is the place of
    the first frame above the entry point, given that this frame is neither
    of the logging module nor the boundary frame: the frames of the entry
    points themselves are passed over. So, whatever the sinks do, [Logf]
    does what [Log] does on the text of [fmt.Sprintf], after the call of
    [fmt.Sprintf] that it makes once it is past the gate, and likewise for
    the other three pairs. *)
Theorem caller_location_single
    (fmt_Sprintf : string -> list Value -> string)
    (sinks : nat -> Method -> string -> Result string)
    (c : Frame) (rest : list Frame) (n m : nat)
    (l : Logger) (format : string) (params : list Value) (w : World) :
  plain (file c) = true -> is_module c = false -> is_boundary c = false ->
  traceType l = TRACE_TYPE_ONE ->
  trace_line TRACE_TYPE_ONE (frame n :: c :: rest) = location c
  /\ trace_line TRACE_TYPE_ONE (frame n :: frame m :: c :: rest) = location c
  /\ Logf fmt_Sprintf sinks l format params (c :: rest) w =
     (if level l <? LEVEL_INFO
      then Log sinks l [VString (fmt_Sprintf format params)] (c :: rest) w
      else after_event (ESprintf format params)
             (Log sinks l [VString (fmt_Sprintf format params)] (c :: rest) w))
  /\ Errorf fmt_Sprintf sinks l format params (c :: rest) w =
     after_event (ESprintf format params)
       (Error sinks l [VString (fmt_Sprintf format params)] (c :: rest) w)
  /\ Debugf fmt_Sprintf sinks l format params (c :: rest) w =
     (if level l <? LEVEL_DEBUG
      then Debug sinks l [VString (fmt_Sprintf format params)] (c :: rest) w
      else after_event (ESprintf format params)
             (Debug sinks l [VString (fmt_Sprintf format params)] (c :: rest) w))
  /\ Fatalf fmt_Sprintf sinks l format params (c :: rest) w =
     after_event (ESprintf format params)
       (Fatal sinks l [VString (fmt_Sprintf format params)] (c :: rest) w).
Proof.
  intros Hplain Hm Hb Htr.
  assert (forall k, recorded TRACE_TYPE_ONE (examined (frame k :: c :: rest)) = [c])
    as Hone.
  { intros k. rewrite !examined_cons. cbn [take recorded].
    by rewrite is_module_frame, Hm, Hb. }
  assert (forall k k',
            recorded TRACE_TYPE_ONE (examined (frame k :: frame k' :: c :: rest)) = [c])
    as Htwo.
  { intros k k'. rewrite !examined_cons. cbn [take recorded].
    by rewrite !is_module_frame, Hm, Hb. }
  assert (forall k, trace_line TRACE_TYPE_ONE (frame k :: c :: rest) = location c)
    as Hline1.
  { intros k. rewrite trace_line_entries; rewrite Hone; [done|by repeat constructor]. }
  assert (forall k k',
            trace_line TRACE_TYPE_ONE (frame k :: frame k' :: c :: rest) = location c)
    as Hline2.
  { intros k k'.
    rewrite trace_line_entries; rewrite Htwo; [done|by repeat constructor]. }
  assert (forall typeLog err k k' host now,
            format_message typeLog err TRACE_TYPE_ONE
              (frame k :: frame k' :: c :: rest) host now =
            format_message typeLog err TRACE_TYPE_ONE
              (frame k :: c :: rest) host now) as Hmsg.
  { intros. by rewrite !format_message_shape, Hline1, Hline2. }
  split; [apply Hline1|]. split; [apply Hline2|].
  unfold Logf, Errorf, Debugf, Fatalf. split; [|split; [|split]].
  - destruct (level l <? LEVEL_INFO) eqn:E.
    + rewrite Log_unfold, E. reflexivity.
    + rewrite Sprintf_then. f_equal. rewrite !Log_unfold, E. cbn zeta.
      by rewrite Htr, Hmsg.
  - rewrite Sprintf_then. f_equal. rewrite !Error_unfold. cbn zeta.
    by rewrite Htr, Hmsg.
  - destruct (level l <? LEVEL_DEBUG) eqn:E.
    + rewrite Debug_unfold, E. reflexivity.
    + rewrite Sprintf_then. f_equal. rewrite !Debug_unfold, E. cbn zeta.
      by rewrite Htr, Hmsg.
  - rewrite Sprintf_then. f_equal. rewrite !Fatal_unfold. cbn zeta.
    by rewrite Htr, Hmsg.
Qed.

(** [Logf] called from line 124 of the test file. *)
Lemma caller_location_single_in_test :
  (plain (file {| file := "logger_test.go"; line := 124 |}) = true
   /\ is_module {| file := "logger_test.go"; line := 124 |} = false
   /\ is_boundary {| file := "logger_test.go"; line := 124 |} = false
   /\ traceType (fst (SetTraceType TRACE_TYPE_ONE (example_logger LEVEL_DEBUG))) =
      TRACE_TYPE_ONE)
  /\ trace_line TRACE_TYPE_ONE
       (frame 129 :: frame 122 :: {| file := "logger_test.go"; line := 124 |} :: []) =
     location {| file := "logger_test.go"; line := 124 |}.
Proof.
  split; [by repeat split|].
  exact (proj1 (proj2 (caller_location_single (fun format _ => format) test_sinks
                         {| file := "logger_test.go"; line := 124 |} [] 129 122
                         (fst (SetTraceType TRACE_TYPE_ONE (example_logger LEVEL_DEBUG)))
                         "" [] fresh_world eq_refl eq_refl eq_refl eq_refl))).
Defined.

(** ** The Telegram provider *)

(** [NewTelegramProvider] refuses the empty address, whatever the
    recipients are, and refuses the [nil] slice of recipients; every other
    pair, the empty slice that is not [nil] included, gives a provider
    holding exactly the address and the recipients passed. *)
Theorem NewTelegramProvider_checked (address : string) (ids : list string)
    (recipients : option (list string)) :
  (address = "" ->
   NewTelegramProvider address recipients = (None, Some "Empty telegram url."))
  /\ (address <> "" ->
   NewTelegramProvider address None = (None, Some "Empty telegram chat ids.")
   /\ NewTelegramProvider address (Some ids) =
      (Some {| url := address; chatIds := ids |}, None)
   /\ NewTelegramProvider address (Some []) =
      (Some {| url := address; chatIds := [] |}, None)).
Proof.
  unfold NewTelegramProvider. split.
  - intros ->. reflexivity.
  - intros Hne. destruct (String.length address =? 0)%nat eqn:E; [|done].
    by apply length_zero_empty in E.
Qed.

(** The empty address and a bot address. *)
Lemma NewTelegramProvider_checked_on_example :
  (("" : string) = ""
   /\ NewTelegramProvider "" (Some ["42"]) = (None, Some "Empty telegram url."))
  /\ (("https://api.telegram.org/bot1/sendMessage" : string) <> ""
      /\ NewTelegramProvider "https://api.telegram.org/bot1/sendMessage" (Some ["42"]) =
         (Some {| url := "https://api.telegram.org/bot1/sendMessage";
                  chatIds := ["42"] |}, None)).
Proof.
  assert (("https://api.telegram.org/bot1/sendMessage" : string) <> "") as H
    by discriminate.
  split.
  - split; [reflexivity|].
    exact (proj1 (NewTelegramProvider_checked "" [] (Some ["42"])) eq_refl).
  - split; [exact H|].
    exact (proj1 (proj2 (proj2 (NewTelegramProvider_checked
                                  "https://api.telegram.org/bot1/sendMessage"
                                  ["42"] None) H))).
Defined.

Section TelegramProofs.

Variable NewRequest_ok : string -> bool.
Variable Do_ok : string -> string -> bool.

Lemma tg_send_loop_all_answer address ids subject body deferred :
  NewRequest_ok address = true ->
  Forall (fun c => Do_ok address (tg_message c subject body) = true) ids ->
  tg_send_loop NewRequest_ok Do_ok address ids subject body deferred =
  (map (fun c => HPost address "application/json" (tg_message c subject body)) ids
   ++ reverse (map (fun c => HClose (tg_message c subject body)) ids)
   ++ deferred, Ok tt).
Proof.
  intros Hreq Hall. revert deferred.
  induction Hall as [|c ids Hc _ IH]; intros deferred; cbn [tg_send_loop map].
  - reflexivity.
  - rewrite Hreq, Hc. cbn [negb]. rewrite IH.
    by rewrite reverse_cons, <-!app_assoc.
Qed.

(** When a request can be built for the address and every recipient's
    request is answered, every method of the provider posts one request per
    recipient, in the order of the recipients, each to the address of the
    provider with the content type "application/json" and the body
    [{"chat_id":<recipient>,"text":"<subject><message>"}], the subject being
    the one of the method; the responses are closed only after the last
    request, the latest first; and the goroutine returns. *)
Theorem TelegramProvider_posts_to_all (p : TelegramProvider) (m : Method)
    (msg : string) :
  NewRequest_ok (url p) = true ->
  Forall (fun c => Do_ok (url p) (tg_message c (subject_of m) msg) = true)
    (chatIds p) ->
  TelegramProvider_call NewRequest_ok Do_ok p m msg =
  (map (fun c => HPost (url p) "application/json"
                   (tg_message c (subject_of m) msg)) (chatIds p)
   ++ reverse (map (fun c => HClose (tg_message c (subject_of m) msg)) (chatIds p)),
   Ok tt).
Proof.
  intros Hreq Hall. unfold TelegramProvider_call, send, tg_send.
  rewrite tg_send_loop_all_answer by done. by rewrite app_nil_r.
Qed.

(** When the request of a recipient gets no response, [tg_send] panics on
    reading the body of the missing response: the recipients before it got
    their requests and their responses are closed, the recipients after it
    get no request at all. *)
Theorem tg_send_stops_at_unanswered (address subject body : string)
    (before after : list string) (c : string) :
  NewRequest_ok address = true ->
  Forall (fun c' => Do_ok address (tg_message c' subject body) = true) before ->
  Do_ok address (tg_message c subject body) = false ->
  tg_send NewRequest_ok Do_ok address (before ++ c :: after) subject body =
  (map (fun c' => HPost address "application/json" (tg_message c' subject body))
     (before ++ [c])
   ++ reverse (map (fun c' => HClose (tg_message c' subject body)) before),
   Panic nil_dereference).
Proof.
  intros Hreq Hall Hc.
  assert (forall deferred,
            tg_send_loop NewRequest_ok Do_ok address (before ++ c :: after)
              subject body deferred =
            (map (fun c' => HPost address "application/json"
                              (tg_message c' subject body)) (before ++ [c])
             ++ reverse (map (fun c' => HClose (tg_message c' subject body)) before)
             ++ deferred, Panic nil_dereference)) as Hloop.
  { induction Hall as [|c' before Hc' _ IH]; intros deferred;
      cbn [app tg_send_loop map].
    - by rewrite Hreq, Hc.
    - rewrite Hreq, Hc'. cbn [negb]. rewrite IH.
      by rewrite reverse_cons, <-!app_assoc. }
  unfold tg_send. rewrite Hloop. by rewrite app_nil_r.
Qed.

(** With no recipients [tg_send] does nothing and returns, whatever the
    address is; with a recipient and an address no request can be built
    for, it panics on setting the header of the missing request, before
    anything is sent. *)
Theorem tg_send_without_request (address subject body : string)
    (c : string) (ids : list string) :
  NewRequest_ok address = false ->
  tg_send NewRequest_ok Do_ok address [] subject body = ([], Ok tt)
  /\ tg_send NewRequest_ok Do_ok address (c :: ids) subject body =
     ([], Panic nil_dereference).
Proof.
  intros Hreq. split; [reflexivity|].
  unfold tg_send. cbn [tg_send_loop]. by rewrite Hreq.
Qed.

End TelegramProofs.

(** Three recipients, all answered. *)
Lemma TelegramProvider_posts_to_all_on_example :
  ((fun _ : string => true) "https://t.example/send" = true
   /\ Forall (fun c => (fun _ _ : string => true) "https://t.example/send"
                         (tg_message c (subject_of MError) "ERROR: x") = true)
        ["1"; "2"; "3"])
  /\ snd (TelegramProvider_call (fun _ => true) (fun _ _ => true)
            {| url := "https://t.example/send"; chatIds := ["1"; "2"; "3"] |}
            MError "ERROR: x") = Ok tt.
Proof.
  assert (Forall (fun c => (fun _ _ : string => true) "https://t.example/send"
                             (tg_message c (subject_of MError) "ERROR: x") = true)
            ["1"; "2"; "3"]) as H by (repeat constructor).
  split; [by split|].
  by rewrite (TelegramProvider_posts_to_all (fun _ => true) (fun _ _ => true)
                {| url := "https://t.example/send"; chatIds := ["1"; "2"; "3"] |}
                MError "ERROR: x" eq_refl H).
Defined.

(** Three recipients, the second of which is not answered. *)
Lemma tg_send_stops_at_unanswered_on_example :
  let answers := fun (_ body : string) =>
    negb (String.eqb body (tg_message "2" "Log message" "x")) in
  ((fun _ : string => true) "https://t.example/send" = true
   /\ Forall (fun c => answers "https://t.example/send"
                         (tg_message c "Log message" "x") = true) ["1"]
   /\ answers "https://t.example/send" (tg_message "2" "Log message" "x") = false)
  /\ tg_send (fun _ => true) answers "https://t.example/send" (["1"] ++ "2" :: ["3"])
       "Log message" "x" =
     ([HPost "https://t.example/send" "application/json"
         (tg_message "1" "Log message" "x");
       HPost "https://t.example/send" "application/json"
         (tg_message "2" "Log message" "x");
       HClose (tg_message "1" "Log message" "x")],
      Panic nil_dereference).
Proof.
  intros answers.
  assert (Forall (fun c => answers "https://t.example/send"
                             (tg_message c "Log message" "x") = true) ["1"]) as H
    by (repeat constructor).
  split; [by repeat split|].
  exact (tg_send_stops_at_unanswered (fun _ => true) answers
           "https://t.example/send" "Log message" "x" ["1"] ["3"] "2"
           eq_refl H eq_refl).
Defined.

(** An address no request can be built for. *)
Lemma tg_send_without_request_on_example :
  (fun _ : string => false) "%zz" = false
  /\ tg_send (fun _ => false) (fun _ _ => true) "%zz" ["1"; "2"] "Log message" "x" =
     ([], Panic nil_dereference).
Proof.
  split; [reflexivity|].
  exact (proj2 (tg_send_without_request (fun _ => false) (fun _ _ => true)
                  "%zz" "Log message" "x" "1" ["2"] eq_refl)).
Defined.

(** ** The provider of the tests *)

(** The identifier of a test provider determines its level: providers of
    different levels report different identifiers, so each gets a registry
    entry of its own. *)
Theorem Provider_GetID_injective (p q : Provider) :
  Provider_GetID p = Provider_GetID q <-> Level p = Level q.
Proof.
  unfold Provider_GetID, fmt_Sprint. split; [|by intros ->].
  intros Heq. apply DecimalZ.to_int_inj.
  assert (forall z, NilZero.int_of_string (NilZero.string_of_int (Z.to_int z)) =
                    Some (Z.to_int z)) as Hround.
  { intros z. apply NilZero.isi; intros E;
      pose proof (f_equal Z.of_int E) as E'; rewrite DecimalZ.of_to in E';
      subst z; vm_compute in E; discriminate E. }
  apply (f_equal NilZero.int_of_string) in Heq. rewrite !Hround in Heq.
  congruence.
Qed.

Lemma test_logger_setup (lvl : Z) :
  setup (test_logger_ops lvl) NewLogger =
  Ok {| providers := <[Provider_GetID (test_provider lvl) :=
                        Provider_interface 0 (test_provider lvl)]> ∅;
        logProviders := [Provider_GetID (test_provider lvl)];
        errorProviders := [Provider_GetID (test_provider lvl)];
        fatalProviders := [Provider_GetID (test_provider lvl)];
        debugProviders := [Provider_GetID (test_provider lvl)];
        level := lvl;
        traceType := 0 |}.
Proof.
  unfold test_logger_ops. cbn [setup run_op].
  repeat (rewrite AddProvider_Ok; cbv beta iota;
          rewrite ?providers_set_field;
          cbn [RegisterProvider SetLevel NewLogger providers add_loop];
          rewrite lookup_insert_eq).
  reflexivity.
Qed.

Lemma build_events_quiet (lvl : Z) (w : World) : Forall (quiet lvl) (build_events w).
Proof.
  unfold build_events.
  destruct (String.length (HOST w) =? 0)%nat; repeat constructor.
Qed.

(** For every level, not only the three the test runs through: on the
    logger [TestPringMessage] sets up for a level, with the test provider
    of that level in all four lists, [Log], [Logf], [Debug] and [Debugf]
    call the provider only where its method returns, so none of these calls
    panics and each of them returns. *)
Theorem test_provider_is_not_hit
    (fmt_Sprintf : string -> list Value -> string) (lvl : Z)
    parts format params callers w :
  exists l,
    setup (test_logger_ops lvl) NewLogger = Ok l
    /\ Forall (quiet lvl) (trace (Log (stub_sinks lvl) l parts callers w))
    /\ Forall (quiet lvl)
         (trace (Logf fmt_Sprintf (stub_sinks lvl) l format params callers w))
    /\ Forall (quiet lvl) (trace (Debug (stub_sinks lvl) l parts callers w))
    /\ Forall (quiet lvl)
         (trace (Debugf fmt_Sprintf (stub_sinks lvl) l format params callers w))
    /\ result (Log (stub_sinks lvl) l parts callers w) = Done tt
    /\ result (Logf fmt_Sprintf (stub_sinks lvl) l format params callers w) = Done tt
    /\ result (Debug (stub_sinks lvl) l parts callers w) = Done tt
    /\ result (Debugf fmt_Sprintf (stub_sinks lvl) l format params callers w) =
       Done tt.
Proof.
  eexists. split; [apply test_logger_setup|].
  set (l := {| providers := <[Provider_GetID (test_provider lvl) :=
                               Provider_interface 0 (test_provider lvl)]> ∅;
               logProviders := [Provider_GetID (test_provider lvl)];
               errorProviders := [Provider_GetID (test_provider lvl)];
               fatalProviders := [Provider_GetID (test_provider lvl)];
               debugProviders := [Provider_GetID (test_provider lvl)];
               level := lvl;
               traceType := 0 |}).
  assert (resolved l [Provider_GetID (test_provider lvl)] =
          [Provider_interface 0 (test_provider lvl)]) as Hres.
  { unfold resolved. cbn [omap list_omap providers l].
    by rewrite lookup_insert_eq. }
  assert (forall m msg u,
            Provider_call (test_provider lvl) m msg = Ok tt ->
            dispatch (stub_sinks lvl) l m [Provider_GetID (test_provider lvl)] msg u =
            {| trace := [ECall (Provider_interface 0 (test_provider lvl)) m msg];
               world := u; result := Done tt |}) as Hrun.
  { intros m msg u Hok. rewrite dispatch_unchanged; rewrite Hres; [done|].
    repeat constructor. unfold stub_sinks, Provider_method. by rewrite Hok. }
  assert (forall msg, (lvl <? LEVEL_INFO) = false ->
            Provider_call (test_provider lvl) MLog msg = Ok tt) as HLog.
  { intros msg E. cbn [Provider_call test_provider Level NotCheckLevel]. by rewrite E. }
  assert (forall msg, (lvl <? LEVEL_DEBUG) = false ->
            Provider_call (test_provider lvl) MDebug msg = Ok tt) as HDebug.
  { intros msg E. cbn [Provider_call test_provider Level NotCheckLevel]. by rewrite E. }
  assert (forall ps cs,
            Forall (quiet lvl) (trace (Log (stub_sinks lvl) l ps cs w))
            /\ result (Log (stub_sinks lvl) l ps cs w) = Done tt) as HL.
  { intros ps cs. rewrite Log_unfold. cbn [level logProviders traceType l].
    destruct (lvl <? LEVEL_INFO) eqn:E; [by split|].
    cbn zeta. rewrite Hrun by by apply HLog. cbn [trace result]. split; [|done].
    apply Forall_app. split; [apply build_events_quiet|].
    repeat constructor. by apply HLog. }
  assert (forall ps cs,
            Forall (quiet lvl) (trace (Debug (stub_sinks lvl) l ps cs w))
            /\ result (Debug (stub_sinks lvl) l ps cs w) = Done tt) as HD.
  { intros ps cs. rewrite Debug_unfold. cbn [level debugProviders traceType l].
    destruct (lvl <? LEVEL_DEBUG) eqn:E; [by split|].
    cbn zeta. rewrite Hrun by by apply HDebug. cbn [trace result]. split; [|done].
    apply Forall_app. split; [apply build_events_quiet|].
    repeat constructor. by apply HDebug. }
  assert (forall cs,
            Forall (quiet lvl)
              (trace (Logf fmt_Sprintf (stub_sinks lvl) l format params cs w))
            /\ result (Logf fmt_Sprintf (stub_sinks lvl) l format params cs w) =
               Done tt) as HLf.
  { intros cs. unfold Logf. cbn [level l].
    destruct (lvl <? LEVEL_INFO) eqn:E; [by split|].
    rewrite Sprintf_then. cbn [after_event trace result].
    destruct (HL [VString (fmt_Sprintf format params)] (frame 122 :: cs)) as [Ht Hr].
    split; [|exact Hr]. by constructor. }
  assert (forall cs,
            Forall (quiet lvl)
              (trace (Debugf fmt_Sprintf (stub_sinks lvl) l format params cs w))
            /\ result (Debugf fmt_Sprintf (stub_sinks lvl) l format params cs w) =
               Done tt) as HDf.
  { intros cs. unfold Debugf. cbn [level l].
    destruct (lvl <? LEVEL_DEBUG) eqn:E; [by split|].
    rewrite Sprintf_then. cbn [after_event trace result].
    destruct (HD [VString (fmt_Sprintf format params)] (frame 158 :: cs)) as [Ht Hr].
    split; [|exact Hr]. by constructor. }
  destruct (HL parts callers) as [? ?]. destruct (HD parts callers) as [? ?].
  destruct (HLf callers) as [? ?]. destruct (HDf callers) as [? ?].
  done.
Qed.
